(** * eltakoMS: datagram sanity checks, decoding and windowed averaging

    A shallow embedding of the endless loop of [main] in [src/eltakoMS.c]
    (lines 279-417): reading one datagram into [buf], the sanity checks that
    build the error mask [err], the destructive decoding of the fields, the
    accumulation into the running sums and maxima, and the emission of the
    averaged record when the phase [ltime % interval] wraps around.

    Conventions of the model.
    - Plain [char] is unsigned: the option loop compares the [char] result of
      [getopt] with 255 to detect its end, which only works where [char] is
      unsigned.  A byte is a [Z] in 0..255.
    - [int] and [long] values are mathematical integers: the model describes
      the executions in which no signed arithmetic overflows (C leaves the
      others undefined).  Lemma [accumulate_bounds] below bounds the growth of
      every accumulator per accepted sample.  Where the C library converts
      text to an [int] ([atoi]), an [int] has 32 bits and a [long] 64, and a
      number that does not fit is cut as the library cuts it.
    - [double] arithmetic is IEEE-754 binary64 with round-to-nearest-even,
      taken from the specification of floats in the standard library
      ([SpecFloat], precision 53, emax 1024).
    - The output sinks (snapshot file, log file, syslog) are recorded as a
      list of events carrying the arguments handed to the formatting call. *)

From Stdlib Require Import ZArith List Bool Lia String Ascii.
From Stdlib Require Import Floats.SpecFloat.
Import ListNotations.
Open Scope Z_scope.

(** ** Bytes, buffers and C strings *)

Definition LINELEN : nat := 150.

(** [*(buf+i)]: the buffer is a list of bytes; the model reads 0 where the
    list is too short. *)
Definition ch (buf : list Z) (i : nat) : Z := nth i buf 0.

(** [*(buf+i) = c].  A store outside the list is dropped: the source stores
    one past the end of [buf] when 150 bytes arrive without an end mark. *)
Fixpoint upd (i : nat) (c : Z) (buf : list Z) : list Z :=
  match buf, i with
  | [], _ => []
  | _ :: r, O => c :: r
  | b :: r, S j => b :: upd j c r
  end.

(** The bytes of a string literal, for writing datagrams down. *)
Definition bytes_of_string (s : string) : list Z :=
  map (fun a => Z.of_N (N_of_ascii a)) (list_ascii_of_string s).

Definition isdigit (c : Z) : bool := (48 <=? c) && (c <=? 57).
Definition isspace (c : Z) : bool := (c =? 32) || ((9 <=? c) && (c <=? 13)).

(** The test [*(buf+i) < '0' || *(buf+i) > '9'] of the sanity checks. *)
Definition not_numeric (buf : list Z) (i : nat) : bool :=
  (ch buf i <? 48) || (ch buf i >? 57).

(** ** The C library functions the loop calls *)

Module Libc.

(** The run of decimal digits at the head of [s], read most significant
    digit first into [accu]. *)
Fixpoint digits_value (s : list Z) (accu : Z) : Z :=
  match s with
  | c :: r => if isdigit c then digits_value r (accu * 10 + (c - 48)) else accu
  | [] => accu
  end.

Fixpoint digits_count (s : list Z) : nat :=
  match s with
  | c :: r => if isdigit c then S (digits_count r) else O
  | [] => O
  end.

Fixpoint skip_digits (s : list Z) : list Z :=
  match s with
  | c :: r => if isdigit c then skip_digits r else s
  | [] => []
  end.

Fixpoint skip_space (s : list Z) : list Z :=
  match s with
  | c :: r => if isspace c then skip_space r else s
  | [] => []
  end.

Definition LONG_MAX : Z := 2 ^ 63 - 1.
Definition LONG_MIN : Z := - 2 ^ 63.

(** [strtol (s, NULL, 10)] for a [long] of 64 bits: white space, an optional
    sign, then decimal digits up to the first other character; a value
    outside the range of [long] is replaced by the nearer limit. *)
Definition strtol (s : list Z) : Z :=
  match skip_space s with
  | 43 :: r => Z.min (digits_value r 0) LONG_MAX
  | 45 :: r => Z.max (- digits_value r 0) LONG_MIN
  | r => Z.min (digits_value r 0) LONG_MAX
  end.

(** The conversion of a [long] to an [int] of 32 bits: the low 32 bits, read
    as a signed number. *)
Definition to_int (z : Z) : Z := (z + 2 ^ 31) mod 2 ^ 32 - 2 ^ 31.

(** [atoi] as the C library defines it, [(int) strtol (s, NULL, 10)]: the
    number the text names whenever that fits an [int], and otherwise the low
    32 bits of what [strtol] returns. *)
Definition atoi (s : list Z) : Z := to_int (strtol s).

(** A C string handed over as a pointer: the bytes before the first NUL. *)
Fixpoint c_str (s : list Z) : list Z :=
  match s with
  | c :: r => if c =? 0 then [] else c :: c_str r
  | [] => []
  end.

(** Conversion of an integer to [double]. *)
Definition Z2D (z : Z) : spec_float := binary_normalize 53 1024 z 0 false.

Definition Dmul : spec_float -> spec_float -> spec_float := SFmul 53 1024.
Definition Dadd : spec_float -> spec_float -> spec_float := SFadd 53 1024.
Definition Ddiv : spec_float -> spec_float -> spec_float := SFdiv 53 1024.
Definition Dleb : spec_float -> spec_float -> bool := SFleb.

(** The cast [(int) x]: the fractional part is discarded (truncation toward
    zero).  Infinities and NaN, for which C leaves the cast undefined, are
    sent to 0. *)
Definition D2int (x : spec_float) : Z :=
  match x with
  | S754_finite s m e =>
      let a := if 0 <=? e then Z.pos m * 2 ^ e else Z.pos m / 2 ^ (- e) in
      if s then - a else a
  | _ => 0
  end.

(** The decimal [m / 10^k] as the nearest [double]: the quotient of two
    exactly represented integers, correctly rounded. *)
Definition decimal (m : Z) (k : nat) : spec_float :=
  Ddiv (Z2D m) (Z2D (10 ^ Z.of_nat k)).

Definition unsigned_decimal (s : list Z) : spec_float :=
  let ip := digits_value s 0 in
  match skip_digits s with
  | 46 :: f => decimal (digits_value f ip) (digits_count f)
  | _ => Z2D ip
  end.

(** [atof] on plain decimal text: white space, an optional sign, digits, an
    optional point and more digits.  The exponent, hexadecimal, infinity and
    NaN forms of [strtod] cannot start at a field that passed the sanity
    checks and are left out. *)
Definition atof (s : list Z) : spec_float :=
  match skip_space s with
  | 43 :: r => unsigned_decimal r
  | 45 :: r => SFopp (unsigned_decimal r)
  | r => unsigned_decimal r
  end.

(** [strncpy (bufcpy, buf, n)] read back as a C string: the bytes of [buf]
    before its first NUL, at most [n] of them.  This is what line 294 stores
    in [bufcpy]; it is also what [%s] prints as long as a NUL is among the
    [n] bytes copied.  When [n] bytes without a NUL are copied, the source
    leaves [bufcpy] without an end and [%s] reads on behind the copy: what
    it finds there is not part of the model. *)
Fixpoint strncpy (n : nat) (s : list Z) : list Z :=
  match n, s with
  | S k, c :: r => if c =? 0 then [] else c :: strncpy k r
  | _, _ => []
  end.

End Libc.
Import Libc.

(** ** Reading one datagram (lines 287-293) *)

(** The [do ... while] loop: every byte delivered by [read] is stored at [s]
    and [s] advanced, until the byte stored last is the end mark 0x03 or
    [LINELEN] bytes were stored.  [input] is what the serial line still
    delivers; when it runs dry before the loop ends, [read] blocks and the
    flag of the result is [false]. *)
Fixpoint read_loop (input buf : list Z) (s : nat) : list Z * nat * list Z * bool :=
  match input with
  | [] => (buf, s, [], false)
  | c :: rest =>
      let buf' := upd s c buf in
      if negb (c =? 3) && (S s <? LINELEN)%nat
      then read_loop rest buf' (S s)
      else (buf', S s, rest, true)
  end.

(** One datagram in [buf], terminated as a string by [*(s) = '\0'].  The
    result holds the buffer, [s - buf] and the rest of the input.  After a
    read of [LINELEN] bytes the source stores this NUL behind the end of
    [buf]; the model drops the store and says nothing about what it
    overwrites. *)
Definition read_frame (input buf : list Z) : option (list Z * Z * list Z) :=
  match read_loop input buf 0 with
  | (buf', s, rest, true) => Some (upd s 0 buf', Z.of_nat s, rest)
  | (_, _, _, false) => None
  end.

(** ** The sanity checks (lines 296-350) *)

(** The statements [if (c) err |= bit;] in the order of the source. *)
Definition sanity_checks (buf : list Z) (n : Z) : list (bool * Z) :=
  [ (negb (n =? 40), 0x0001);
    (negb (ch buf 0 =? 87), 0x0002);
    (negb (ch buf 1 =? 43) && negb (ch buf 1 =? 45), 0x0004);
    (not_numeric buf 2, 0x0008);
    (not_numeric buf 3, 0x0008);
    (negb (ch buf 4 =? 46), 0x0008);
    (not_numeric buf 5, 0x0008);
    (not_numeric buf 6, 0x0010);
    (not_numeric buf 7, 0x0010);
    (not_numeric buf 8, 0x0020);
    (not_numeric buf 9, 0x0020);
    (not_numeric buf 10, 0x0040);
    (not_numeric buf 11, 0x0040);
    (negb (ch buf 12 =? 74) && negb (ch buf 12 =? 78), 0x0080);
    (not_numeric buf 13, 0x0100);
    (not_numeric buf 14, 0x0100);
    (not_numeric buf 15, 0x0100);
    (not_numeric buf 16, 0x0200);
    (not_numeric buf 17, 0x0200);
    (negb (ch buf 18 =? 46), 0x0200);
    (not_numeric buf 19, 0x0200);
    (negb (ch buf 20 =? 74) && negb (ch buf 20 =? 78), 0x0400);
    (negb (ch buf 21 =? 63), 0x0800);
    (negb (ch buf 22 =? 49), 0x0800);
    (negb (ch buf 23 =? 53), 0x0800);
    (negb (ch buf 24 =? 49), 0x0800);
    (negb (ch buf 25 =? 53), 0x0800);
    (negb (ch buf 26 =? 49), 0x0800);
    (negb (ch buf 27 =? 53), 0x0800);
    (negb (ch buf 28 =? 49), 0x0800);
    (negb (ch buf 29 =? 53), 0x0800);
    (negb (ch buf 30 =? 49), 0x0800);
    (negb (ch buf 31 =? 53), 0x0800);
    (negb (ch buf 32 =? 49), 0x0800);
    (negb (ch buf 33 =? 53), 0x0800);
    (negb (ch buf 34 =? 63), 0x0800);
    (not_numeric buf 35, 0x1000);
    (not_numeric buf 36, 0x1000);
    (not_numeric buf 37, 0x1000);
    (not_numeric buf 38, 0x1000) ].

Definition apply_check (err : Z) (c : bool * Z) : Z :=
  if fst c then Z.lor err (snd c) else err.

(** [for (i=0, sum=0; i<35; i++) sum += *(buf+i);] *)
Definition checksum (buf : list Z) : Z :=
  fold_left (fun sum i => sum + ch buf i) (seq 0 35) 0.

(** The error mask [err] after line 350; [n] is [s - buf]. *)
Definition validate (buf : list Z) (n : Z) : Z :=
  let err := fold_left apply_check (sanity_checks buf n) 0 in
  if negb (Z.land err 0x1000 =? 0) || negb (checksum buf =? atoi (skipn 35 buf))
  then Z.lor err 0x2000
  else err.

(** ** Decoding (lines 355-375) *)

(** The variables [temp], [sunS], [sunW], [sunE], [obsc], [dawn], [wind] and
    [rain] of one accepted datagram; [temp] and [wind] are tenths, [obsc] and
    [rain] are the display characters. *)
Record Measurement := {
  temp : Z; sunS : Z; sunW : Z; sunE : Z; obsc : Z; dawn : Z; wind : Z; rain : Z
}.

(** The fields are carved out of [buf] from the right, each NUL store ending
    the text of the field parsed next.  The source interleaves these
    statements with the accumulation; they read and write [buf] only. *)
Definition decode (buf : list Z) : Measurement * list Z :=
  let rain := if ch buf 20 =? 74 then 82 else 114 in
  let buf := upd 20 0 buf in
  let wind := D2int (Dmul (atof (skipn 16 buf)) (Z2D 10)) in
  let buf := upd 16 0 buf in
  let dawn := atoi (skipn 13 buf) in
  let obsc := if ch buf 12 =? 74 then 79 else 111 in
  let buf := upd 12 0 buf in
  let sunE := atoi (skipn 10 buf) in
  let buf := upd 10 0 buf in
  let sunW := atoi (skipn 8 buf) in
  let buf := upd 8 0 buf in
  let sunS := atoi (skipn 6 buf) in
  let buf := upd 6 0 buf in
  let temp := D2int (Dmul (atof (skipn 1 buf)) (Z2D 10)) in
  ({| temp := temp; sunS := sunS; sunW := sunW; sunE := sunE;
      obsc := obsc; dawn := dawn; wind := wind; rain := rain |}, buf).

(** ** The window accumulator (lines 279-280, 355-377, 394-412) *)

(** The variables of [main] that live across iterations of the loop. *)
Record accum := {
  count : Z; maxRain : Z; maxWind : Z; accDawn : Z; maxObsc : Z;
  accSunE : Z; accSunW : Z; accSunS : Z; accTemp : Z; oldEpoch : Z
}.

(** [count = maxRain = ... = accTemp = 0;] with [oldEpoch] set to [e]. *)
Definition cleared (e : Z) : accum :=
  {| count := 0; maxRain := 0; maxWind := 0; accDawn := 0; maxObsc := 0;
     accSunE := 0; accSunW := 0; accSunS := 0; accTemp := 0; oldEpoch := e |}.

(** Lines 279-280. *)
Definition initial : accum := cleared (-1).

(** The accumulation statements of lines 355-377. *)
Definition accumulate (a : accum) (m : Measurement) : accum :=
  {| count := count a + 1;
     maxRain := if rain m >? maxRain a then rain m else maxRain a;
     maxWind := if wind m >? maxWind a then wind m else maxWind a;
     accDawn := accDawn a + dawn m;
     maxObsc := if obsc m >? maxObsc a then obsc m else maxObsc a;
     accSunE := accSunE a + sunE m;
     accSunW := accSunW a + sunW m;
     accSunS := accSunS a + sunS m;
     accTemp := accTemp a + temp m;
     oldEpoch := oldEpoch a |}.

Definition set_oldEpoch (a : accum) (e : Z) : accum :=
  {| count := count a; maxRain := maxRain a; maxWind := maxWind a;
     accDawn := accDawn a; maxObsc := maxObsc a; accSunE := accSunE a;
     accSunW := accSunW a; accSunS := accSunS a; accTemp := accTemp a;
     oldEpoch := e |}.

(** The arguments of the periodic record: [avgTemp], [avgSunS], [avgSunW],
    [avgSunE], [maxObsc], [avgDawn], [maxWind], [maxRain]. *)
Record AveragedRecord := {
  avgTemp : Z; avgSunS : Z; avgSunW : Z; avgSunE : Z;
  outObsc : Z; avgDawn : Z; outWind : Z; outRain : Z
}.

(** The literal [.5]. *)
Definition half : spec_float := decimal 5 1.

(** [(int)(acc / count + .5)]: the quotient is the integer division of a
    [long] by an [int], so the process is killed when [count] is 0; the
    quotient is then converted to [double], [.5] added and the sum cast back. *)
Definition average (acc cnt : Z) : option Z :=
  if cnt =? 0 then None
  else Some (D2int (Dadd (Z2D (Z.quot acc cnt)) half)).

(** What the loop writes: the snapshot file, the periodic record (a line of
    the log file with its time stamp, or a syslog message) and the syslog
    message about a datagram that failed the sanity checks. *)
Inductive event :=
| Snapshot (m : Measurement)
| LogLine (epoch : Z) (r : AveragedRecord)
| SyslogRecord (r : AveragedRecord)
| SyslogError (err : Z) (bufcpy : list Z).

Section Loop.

(** The options [-i] and [-s]. *)
Variable interval : Z.
Variable use_syslog : bool.

(** Line 395: the time stamp of the record, snapped to the boundary when
    the phase is within 5% of the interval (a comparison of [double]s). *)
Definition stamp (ltime : Z) : Z :=
  if Dleb (Z2D (Z.rem ltime interval)) (Dmul (Z2D interval) (decimal 5 2))
  then Z.quot ltime interval * interval
  else ltime.

(** Lines 397-401 and the arguments of lines 403/407. *)
Definition close_window (a : accum) : option AveragedRecord :=
  match average (accDawn a) (count a), average (accSunE a) (count a),
        average (accSunW a) (count a), average (accSunS a) (count a),
        average (accTemp a) (count a) with
  | Some d, Some e, Some w, Some s, Some t =>
      Some {| avgTemp := t; avgSunS := s; avgSunW := w; avgSunE := e;
              outObsc := maxObsc a; avgDawn := d;
              outWind := maxWind a; outRain := maxRain a |}
  | _, _, _, _, _ => None
  end.

(** One accepted sample at time [ltime]: fold it in, then close the window
    when the phase fell below the stored one.  [None] is the division by
    zero; otherwise the new accumulator and the record, if one is due. *)
Definition accept (a : accum) (m : Measurement) (ltime : Z)
  : option (accum * option (Z * AveragedRecord)) :=
  let a1 := accumulate a m in
  if Z.rem ltime interval <? oldEpoch a1 then
    match close_window a1 with
    | Some r => Some (cleared (Z.rem ltime interval), Some (stamp ltime, r))
    | None => None
    end
  else Some (set_oldEpoch a1 (Z.rem ltime interval), None).

Definition emit (r : option (Z * AveragedRecord)) : list event :=
  match r with
  | Some (epoch, rec) => [if use_syslog then SyslogRecord rec else LogLine epoch rec]
  | None => []
  end.

(** The body of the loop after the read (lines 294-415): [buf] holds the
    datagram, [n] is [s - buf], [ltime] the value of [time (NULL)]. *)
Definition process (a : accum) (buf : list Z) (n ltime : Z)
  : option (accum * list Z * list event) :=
  let bufcpy := strncpy (LINELEN - 1) buf in
  let err := validate buf n in
  if err =? 0 then
    let (m, buf') := decode buf in
    match accept a m ltime with
    | Some (a', r) => Some (a', buf', Snapshot m :: emit r)
    | None => None
    end
  else Some (a, buf, [SyslogError err bufcpy]).

(** The endless loop, run for as many iterations as [clock] has readings
    of the time, or until the input runs dry and [read] blocks. *)
Fixpoint main_loop (clock input buf : list Z) (a : accum)
  : option (accum * list Z * list event) :=
  match clock with
  | [] => Some (a, buf, [])
  | ltime :: clock' =>
      match read_frame input buf with
      | None => Some (a, buf, [])
      | Some (buf1, n, rest) =>
          match process a buf1 n ltime with
          | None => None
          | Some (a', buf2, out) =>
              match main_loop clock' rest buf2 a' with
              | Some (a'', buf3, out') => Some (a'', buf3, out ++ out')
              | None => None
              end
          end
      end
  end.

End Loop.

(** The accumulators the loop can reach from line 279. *)
Inductive reachable (interval : Z) : accum -> Prop :=
| reach_initial : reachable interval initial
| reach_accept : forall a m ltime a' r,
    reachable interval a ->
    accept interval a m ltime = Some (a', r) ->
    reachable interval a'.

(** A run of accepted samples: the record, if any, of each. *)
Fixpoint accept_all (interval : Z) (a : accum) (samples : list (Measurement * Z))
  : option (list (option (Z * AveragedRecord))) :=
  match samples with
  | [] => Some []
  | (m, ltime) :: rest =>
      match accept interval a m ltime with
      | None => None
      | Some (a', r) => option_map (cons r) (accept_all interval a' rest)
      end
  end.

(** The samples folded into one window since it was cleared. *)
Definition window (e : Z) (ms : list Measurement) : accum :=
  fold_left accumulate ms (cleared e).

(** ** Datagrams used below *)

(** A datagram as the sensor sends it: the text and the end mark 0x03. *)
Definition datagram (s : string) : list Z := bytes_of_string s ++ [3].

(** The datagram of the header comment of the source. *)
Definition example_text : string := "W+07.6016300N99901.2N?151515151515?1889".
(** The same with its first character replaced. *)
Definition marker_text : string := "X+07.6016300N99901.2N?151515151515?1889".
(** The same with one more digit before the end mark. *)
Definition long_text : string := "W+07.6016300N99901.2N?151515151515?18890".
(** Dawn 002 while raining, and dawn 003 while dry. *)
Definition dawn2_rain_text : string := "W+07.6016300N00201.2J?151515151515?1860".
Definition dawn3_dry_text : string := "W+07.6016300N00301.2N?151515151515?1865".
(** Dawn 002 in the dark while raining. *)
Definition dark_rain_text : string := "W+07.6016300J00201.2J?151515151515?1856".

(** The example datagram with a NUL where the point of the temperature was. *)
Definition nul_datagram : list Z :=
  bytes_of_string "W+07" ++ 0 :: bytes_of_string "6016300N99901.2N?151515151515?1889"
  ++ [3].

(** What the example datagram decodes to. *)
Definition example_sample : Measurement :=
  {| temp := 76; sunS := 1; sunW := 63; sunE := 0;
     obsc := 111; dawn := 999; wind := 12; rain := 114 |}.

(** A buffer before the first read (its content is not initialised in C). *)
Definition blank : list Z := repeat 0 LINELEN.

(** The ranges of the fields of the datagram format. *)
Definition in_range (m : Measurement) : Prop :=
  -999 <= temp m <= 999 /\ 0 <= sunS m <= 99 /\ 0 <= sunW m <= 99 /\
  0 <= sunE m <= 99 /\ 0 <= dawn m <= 999 /\ 0 <= wind m <= 999.

(** An accumulator that holds [k] samples within these ranges. *)
Definition within (a : accum) (k : Z) : Prop :=
  count a = k /\ -999 * k <= accTemp a <= 999 * k /\
  0 <= accDawn a <= 999 * k /\ 0 <= accSunS a <= 99 * k /\
  0 <= accSunW a <= 99 * k /\ 0 <= accSunE a <= 99 * k /\
  0 <= maxWind a <= 999.

(** The shape the sanity checks enforce. *)
Record well_formed (buf : list Z) (n : Z) : Prop := {
  wf_length : n = 40;
  wf_marker : ch buf 0 = 87;
  wf_sign : ch buf 1 = 43 \/ ch buf 1 = 45;
  wf_digits : Forall (fun i => isdigit (ch buf i) = true)
                [2; 3; 5; 6; 7; 8; 9; 10; 11; 13; 14; 15; 16; 17; 19;
                 35; 36; 37; 38]%nat;
  wf_points : ch buf 4 = 46 /\ ch buf 18 = 46;
  wf_obsc : ch buf 12 = 74 \/ ch buf 12 = 78;
  wf_rain : ch buf 20 = 74 \/ ch buf 20 = 78;
  wf_padding : map (ch buf) (seq 21 14) = bytes_of_string "?151515151515?";
  wf_checksum : checksum buf = atoi (skipn 35 buf)
}.

(** The buffer after the six NUL stores of the decoding. *)
Definition carved (buf : list Z) : list Z :=
  upd 6 0 (upd 8 0 (upd 10 0 (upd 12 0 (upd 16 0 (upd 20 0 buf))))).

(** The test that the text of [n] tenths, parsed, scaled by 10 and cast,
    gives [n] again, with either sign. *)
Definition tenths_agree (n : Z) : bool :=
  (D2int (Dmul (decimal n 1) (Z2D 10)) =? n)
  && (D2int (Dmul (SFopp (decimal n 1)) (Z2D 10)) =? - n).

(** The test that adding [.5] and casting returns the quotient [q], which is
    not negative, unchanged, and moves the negative quotient [- q - 1] up by
    one. *)
Definition half_agree (q : Z) : bool :=
  (D2int (Dadd (Z2D q) half) =? q)
  && (D2int (Dadd (Z2D (- q - 1)) half) =? - q).

(** Samples the datagrams above decode to. *)
Definition dawn2_rain_sample : Measurement :=
  {| temp := 76; sunS := 1; sunW := 63; sunE := 0;
     obsc := 111; dawn := 2; wind := 12; rain := 82 |}.
Definition dawn3_dry_sample : Measurement :=
  {| temp := 76; sunS := 1; sunW := 63; sunE := 0;
     obsc := 111; dawn := 3; wind := 12; rain := 114 |}.

Definition dark_rain_sample : Measurement :=
  {| temp := 76; sunS := 1; sunW := 63; sunE := 0;
     obsc := 79; dawn := 2; wind := 12; rain := 82 |}.

(** The test that, for the interval [i], the comparison of doubles of line
    395 snaps exactly the phases [p] with [20 * p <= i]. *)
Definition snap_agree (i : Z) : bool :=
  let lim := Dmul (Z2D i) (decimal 5 2) in
  forallb (fun p => Bool.eqb (Dleb (Z2D p) lim) (20 * p <=? i))
    (map Z.of_nat (seq 0 (Z.to_nat i))).

(** ** The output of the loop, as a whole *)

(** Every periodic record stands right after a snapshot. *)
Fixpoint shaped (after_snapshot : bool) (out : list event) : bool :=
  match out with
  | [] => true
  | Snapshot _ :: r => shaped true r
  | SyslogError _ _ :: r => shaped false r
  | LogLine _ _ :: r => after_snapshot && shaped false r
  | SyslogRecord _ :: r => after_snapshot && shaped false r
  end.

(** The periodic records go to the sink the option [-s] selects. *)
Definition sink_ok (use_syslog : bool) (e : event) : bool :=
  match e with
  | LogLine _ _ => negb use_syslog
  | SyslogRecord _ => use_syslog
  | _ => true
  end.

(** ** The options and the file names (lines 150-189, 202-206) *)

Module Options.

(** The variables the option loop sets. *)
Record t := {
  device : list Z; use_syslog : bool; logf : list Z; autoname : bool; interval : Z
}.

(** Their values before the loop; [logf] is not initialised in C. *)
Definition defaults (logf0 : list Z) : t :=
  {| device := bytes_of_string "/dev/ttyS1"; use_syslog := false;
     logf := logf0; autoname := true; interval := 60 |}.

(** The program goes on with the options, leaves with an exit status, or
    copies an argument over the end of a [char] array of [LINELEN] bytes,
    after which C defines nothing. *)
Inductive parsed := Run (o : t) | Exit (status : Z) | Overrun.

(** The string [s] with its closing NUL fits an array of [size] bytes. *)
Definition fits (size : nat) (s : list Z) : bool := (List.length s <? size)%nat.

(** The [switch] of lines 155-182 over the results of [getopt], each with
    its [optarg]: f, V, s, l, i, and [default] for everything else.  The
    [strcpy] of f and l stores the argument up to its NUL. *)
Fixpoint parse (opts : list (Z * list Z)) (o : t) : parsed :=
  match opts with
  | [] => Run o
  | (c, optarg) :: rest =>
      if c =? 102 then
        if fits LINELEN (c_str optarg) then
          parse rest {| device := c_str optarg; use_syslog := use_syslog o;
                        logf := logf o; autoname := autoname o;
                        interval := interval o |}
        else Overrun
      else if c =? 86 then Exit 0
      else if c =? 115 then
        parse rest {| device := device o; use_syslog := true; logf := logf o;
                      autoname := autoname o; interval := interval o |}
      else if c =? 108 then
        if fits LINELEN (c_str optarg) then
          parse rest {| device := device o; use_syslog := false;
                        logf := c_str optarg; autoname := false;
                        interval := interval o |}
        else Overrun
      else if c =? 105 then
        if atoi optarg <? 10 then Exit 1
        else parse rest {| device := device o; use_syslog := use_syslog o;
                           logf := logf o; autoname := autoname o;
                           interval := atoi optarg |}
      else Exit 1
  end.

(** [strrchr (s, c)] advanced by one: what follows the last [c] in [s], if
    there is one. *)
Fixpoint after_last (c : Z) (s : list Z) : option (list Z) :=
  match s with
  | [] => None
  | x :: r =>
      match after_last c r with
      | Some tl => Some tl
      | None => if x =? c then Some r else None
      end
  end.

(** Lines 151-152 and 185: the name without its directory. *)
Definition strip_dir (s : list Z) : list Z :=
  match after_last 47 s with
  | Some tl => tl
  | None => s
  end.

(** A string built in an array of [size] bytes: defined when it fits with
    its closing NUL. *)
Definition stored (size : nat) (s : list Z) : option (list Z) :=
  if fits size s then Some s else None.

(** Line 186, [sprintf (shmf, "%s/%s-%s", DEFSHM, program, tty)] into
    [char shmf[LINELEN]]. *)
Definition shm_name (argv0 dev : list Z) : option (list Z) :=
  stored LINELEN
    (bytes_of_string "/dev/shm" ++ [47] ++ strip_dir (c_str argv0) ++ [45]
     ++ strip_dir (c_str dev)).

(** Line 189, [sprintf (logf, "%s/%s-%s.log", DEFLOG, program, tty)] into
    [char logf[LINELEN]]. *)
Definition log_name (argv0 dev : list Z) : option (list Z) :=
  stored LINELEN
    (bytes_of_string "/usb/log" ++ [47] ++ strip_dir (c_str argv0) ++ [45]
     ++ strip_dir (c_str dev) ++ bytes_of_string ".log").

(** Lines 203-206, built in [char lock[80]]: here the result of [strrchr] is
    advanced without a test, so the name of the lock file is only defined
    for a device name with a slash.  [lockpath] is the macro LOCKPATH of
    config.h. *)
Definition lock_name (lockpath dev : list Z) : option (list Z) :=
  match after_last 47 (c_str dev) with
  | Some tl => stored 80 (c_str lockpath ++ bytes_of_string "/LCK.." ++ tl)
  | None => None
  end.

End Options.

(** * Properties *)

(** ** Buffers *)

Lemma ch_nil : forall i, ch [] i = 0.
Proof. intros [|i]; reflexivity. Qed.

Lemma ch_beyond : forall buf i, (List.length buf <= i)%nat -> ch buf i = 0.
Proof. intros buf i H. unfold ch. now apply nth_overflow. Qed.

Lemma skipn_ch : forall buf i,
  ch buf i <> 0 -> skipn i buf = ch buf i :: skipn (S i) buf.
Proof.
  induction buf as [|b buf IH]; intros i H.
  - now rewrite ch_nil in H.
  - destruct i as [|i]; [reflexivity|].
    change (ch (b :: buf) (S i)) with (ch buf i) in *.
    change (skipn (S i) (b :: buf)) with (skipn i buf).
    now apply IH.
Qed.

Lemma skipn_ch_head : forall buf i, nth 0 (skipn i buf) 0 = ch buf i.
Proof.
  induction buf as [|b buf IH]; intros [|i]; try reflexivity.
  apply IH.
Qed.

(** A stored NUL reads back as NUL, also where the store fell outside. *)
Lemma ch_upd_nul : forall buf i j,
  ch (upd i 0 buf) j = if Nat.eqb j i then 0 else ch buf j.
Proof.
  induction buf as [|b buf IH]; intros i j.
  - replace (upd i 0 []) with (@nil Z) by now destruct i.
    rewrite ch_nil. now destruct (Nat.eqb j i).
  - destruct i as [|i], j as [|j]; try reflexivity.
    change (ch (upd (S i) 0 (b :: buf)) (S j)) with (ch (upd i 0 buf) j).
    change (Nat.eqb (S j) (S i)) with (Nat.eqb j i).
    apply IH.
Qed.

Lemma length_upd : forall buf i c, List.length (upd i c buf) = List.length buf.
Proof.
  induction buf as [|b buf IH]; intros [|i] c; simpl; auto.
Qed.

(** ** The error mask, bit by bit *)

Lemma testbit_checks : forall cs e k,
  0 <= k ->
  Z.testbit (fold_left apply_check cs e) k
  = Z.testbit e k || existsb (fun c => fst c && Z.testbit (snd c) k) cs.
Proof.
  induction cs as [|[c b] cs IH]; intros e k Hk; simpl.
  - now rewrite orb_false_r.
  - rewrite IH by assumption. unfold apply_check; simpl.
    destruct c; simpl.
    + rewrite Z.lor_spec. now rewrite orb_assoc.
    + reflexivity.
Qed.

Lemma checks_zero : forall cs e,
  fold_left apply_check cs e = 0 ->
  e = 0 /\ Forall (fun c => snd c <> 0 -> fst c = false) cs.
Proof.
  induction cs as [|[c b] cs IH]; intros e H; simpl in H.
  - split; [assumption | constructor].
  - apply IH in H. destruct H as [H1 H2]. unfold apply_check in H1; simpl in H1.
    destruct c.
    + apply Z.lor_eq_0_iff in H1. destruct H1 as [-> ->].
      split; [reflexivity|]. constructor; [|assumption]. simpl. congruence.
    + split; [assumption|]. constructor; [|assumption]. reflexivity.
Qed.

Lemma land_pow2 : forall x k,
  0 <= k -> (Z.land x (2 ^ k) =? 0) = negb (Z.testbit x k).
Proof.
  intros x k Hk.
  destruct (Z.testbit x k) eqn:E; simpl.
  - apply Z.eqb_neq. intro H.
    assert (T : Z.testbit (Z.land x (2 ^ k)) k = false)
      by (rewrite H; apply Z.bits_0).
    rewrite Z.land_spec, E, Z.pow2_bits_true in T by assumption. discriminate.
  - apply Z.eqb_eq. apply Z.bits_inj'. intros j Hj.
    rewrite Z.land_spec, Z.bits_0, Z.pow2_bits_eqb by assumption.
    destruct (Z.eqb_spec k j) as [->|]; [now rewrite E | apply andb_false_r].
Qed.

Ltac eval_testbits :=
  repeat match goal with
         | |- context [Z.testbit (Z.pos ?a) ?b] =>
             let v := eval vm_compute in (Z.testbit (Z.pos a) b) in
             change (Z.testbit (Z.pos a) b) with v
         | |- context [Z.testbit 0 ?b] =>
             change (Z.testbit 0 b) with false
         end;
  rewrite ?andb_false_r, ?andb_true_r, ?orb_false_r, ?orb_false_l.

(** The bits of the structural part of the mask. *)
Lemma structural_bit : forall buf n k,
  0 <= k ->
  Z.testbit (fold_left apply_check (sanity_checks buf n) 0) k
  = existsb (fun c => fst c && Z.testbit (snd c) k) (sanity_checks buf n).
Proof. intros. rewrite testbit_checks by assumption. now rewrite Z.bits_0. Qed.

Lemma validate_bit : forall buf n k,
  0 <= k -> k <> 13 ->
  Z.testbit (validate buf n) k
  = existsb (fun c => fst c && Z.testbit (snd c) k) (sanity_checks buf n).
Proof.
  intros buf n k Hk H13. unfold validate.
  match goal with |- context [if ?c then _ else _] => destruct c end.
  - rewrite Z.lor_spec, structural_bit by assumption.
    change 0x2000 with (2 ^ 13). rewrite Z.pow2_bits_false by congruence.
    apply orb_false_r.
  - now apply structural_bit.
Qed.

Lemma digits_fourth_bit : forall buf n,
  Z.testbit (fold_left apply_check (sanity_checks buf n) 0) 12
  = not_numeric buf 35 || not_numeric buf 36 || not_numeric buf 37 || not_numeric buf 38.
Proof.
  intros. rewrite structural_bit by lia.
  unfold sanity_checks. cbn [existsb fst snd]. eval_testbits.
  now rewrite !orb_assoc.
Qed.

Lemma structural_no_checksum_bit : forall buf n,
  Z.testbit (fold_left apply_check (sanity_checks buf n) 0) 13 = false.
Proof.
  intros. rewrite structural_bit by lia.
  unfold sanity_checks. cbn [existsb fst snd]. eval_testbits. reflexivity.
Qed.

Lemma length_bit : forall buf n, Z.testbit (validate buf n) 0 = negb (n =? 40).
Proof.
  intros. rewrite validate_bit by lia.
  unfold sanity_checks. cbn [existsb fst snd]. eval_testbits. reflexivity.
Qed.

(** ** Reading a terminated datagram *)

Lemma upd_app : forall pre c o old,
  upd (List.length pre) c (pre ++ o :: old) = pre ++ c :: old.
Proof.
  induction pre as [|p pre IH]; intros; simpl; [reflexivity|].
  now rewrite IH.
Qed.

Lemma read_loop_datagram : forall payload pre old rest,
  ~ In 3 payload ->
  (List.length pre + List.length payload < LINELEN)%nat ->
  (List.length payload < List.length old)%nat ->
  read_loop (payload ++ 3 :: rest) (pre ++ old) (List.length pre)
  = (pre ++ payload ++ 3 :: skipn (S (List.length payload)) old,
     S (List.length pre + List.length payload), rest, true).
Proof.
  induction payload as [|c p IH]; intros pre old rest Hin Hlen Hold.
  - destruct old as [|o old]; [simpl in Hold; lia|].
    simpl. rewrite upd_app, Nat.add_0_r. reflexivity.
  - destruct old as [|o old]; [simpl in Hold; lia|].
    simpl in Hin, Hlen, Hold.
    cbn [app read_loop]. rewrite upd_app.
    assert (Hc : (c =? 3) = false) by (apply Z.eqb_neq; intro; apply Hin; auto).
    assert (Hs : (S (List.length pre) <? LINELEN)%nat = true)
      by (apply Nat.ltb_lt; lia).
    rewrite Hc, Hs. cbn [negb andb].
    replace (pre ++ c :: old) with ((pre ++ [c]) ++ old)
      by (now rewrite <- app_assoc).
    replace (S (List.length pre)) with (List.length (pre ++ [c]))
      by (rewrite length_app; simpl; lia).
    rewrite IH.
    + rewrite <- app_assoc, length_app. simpl.
      now replace (List.length pre + 1 + List.length p)%nat
        with (List.length pre + S (List.length p))%nat by lia.
    + tauto.
    + rewrite length_app. simpl. lia.
    + lia.
Qed.

(** A datagram of at most [LINELEN - 2] bytes before its end mark is stored
    at the start of the buffer, followed by the NUL; what the buffer held
    beyond stays. *)
Lemma read_datagram : forall payload rest buf0,
  ~ In 3 payload ->
  List.length buf0 = LINELEN ->
  (List.length payload + 2 <= LINELEN)%nat ->
  read_frame (payload ++ 3 :: rest) buf0
  = Some (payload ++ 3 :: 0 :: skipn (List.length payload + 2) buf0,
          Z.of_nat (List.length payload) + 1, rest).
Proof.
  intros payload rest buf0 Hin Hbuf Hlen. unfold read_frame.
  pose proof (read_loop_datagram payload [] buf0 rest Hin) as H.
  cbn [app List.length Nat.add] in H. rewrite H by lia. clear H. cbv beta iota.
  assert (Hs : (S (List.length payload) < List.length buf0)%nat) by lia.
  destruct (skipn (S (List.length payload)) buf0) as [|o old] eqn:E.
  - apply (f_equal (@List.length Z)) in E. rewrite length_skipn in E.
    simpl in E. lia.
  - replace (payload ++ 3 :: o :: old) with ((payload ++ [3]) ++ o :: old)
      by (now rewrite <- app_assoc).
    replace (S (List.length payload)) with (List.length (payload ++ [3]))
      by (rewrite length_app; simpl; lia).
    rewrite upd_app, <- app_assoc. simpl.
    replace (List.length payload + 2)%nat with (1 + S (List.length payload))%nat by lia.
    rewrite <- skipn_skipn, E. simpl.
    repeat f_equal. rewrite length_app. simpl. lia.
Qed.

(** Without any assumption on the buffer: how many bytes were read. *)
Lemma read_loop_count : forall payload rest buf s,
  ~ In 3 payload ->
  (s + List.length payload < LINELEN)%nat ->
  exists buf', read_loop (payload ++ 3 :: rest) buf s
               = (buf', S (s + List.length payload), rest, true).
Proof.
  induction payload as [|c p IH]; intros rest buf s Hin Hlen.
  - simpl. rewrite Nat.add_0_r. eauto.
  - simpl in Hin, Hlen. cbn [app read_loop].
    assert (Hc : (c =? 3) = false) by (apply Z.eqb_neq; intro; apply Hin; auto).
    assert (Hs : (S s <? LINELEN)%nat = true) by (apply Nat.ltb_lt; lia).
    rewrite Hc, Hs. cbn [negb andb].
    destruct (IH rest (upd s c buf) (S s)) as [buf' H]; [tauto | lia |].
    exists buf'. rewrite H. cbn [List.length].
    now replace (S s + List.length p)%nat with (s + S (List.length p))%nat by lia.
Qed.

Lemma read_frame_count : forall payload rest buf0,
  ~ In 3 payload ->
  (List.length payload < LINELEN)%nat ->
  exists buf, read_frame (payload ++ 3 :: rest) buf0
              = Some (buf, Z.of_nat (List.length payload) + 1, rest).
Proof.
  intros payload rest buf0 Hin Hlen. unfold read_frame.
  destruct (read_loop_count payload rest buf0 0 Hin) as [buf' H]; [lia|].
  rewrite H. cbv beta iota. eexists. cbn [Nat.add].
  now replace (Z.of_nat (S (List.length payload)))
    with (Z.of_nat (List.length payload) + 1) by lia.
Qed.

(** ** Decimal text in the buffer *)

Lemma not_numeric_isdigit : forall buf i,
  not_numeric buf i = negb (isdigit (ch buf i)).
Proof.
  intros. unfold not_numeric, isdigit.
  destruct (Z.ltb_spec (ch buf i) 48), (Z.gtb_spec (ch buf i) 57),
    (Z.leb_spec 48 (ch buf i)), (Z.leb_spec (ch buf i) 57); simpl; lia || reflexivity.
Qed.

Lemma isdigit_range : forall c, isdigit c = true <-> 48 <= c <= 57.
Proof. intros. unfold isdigit. rewrite andb_true_iff, !Z.leb_le. tauto. Qed.

Lemma isdigit_cases : forall c,
  isdigit c = true ->
  c = 48 \/ c = 49 \/ c = 50 \/ c = 51 \/ c = 52 \/
  c = 53 \/ c = 54 \/ c = 55 \/ c = 56 \/ c = 57.
Proof. intros c H. apply isdigit_range in H. lia. Qed.

Lemma isdigit_nonzero : forall c, isdigit c = true -> c <> 0.
Proof. intros c H. apply isdigit_range in H. lia. Qed.

Lemma digits_value_at : forall buf i accu,
  digits_value (skipn i buf) accu
  = if isdigit (ch buf i)
    then digits_value (skipn (S i) buf) (accu * 10 + (ch buf i - 48))
    else accu.
Proof.
  intros buf i accu.
  destruct (isdigit (ch buf i)) eqn:D.
  - rewrite (skipn_ch buf i) by now apply isdigit_nonzero.
    simpl. now rewrite D.
  - pose proof (skipn_ch_head buf i) as H.
    destruct (skipn i buf) as [|c r]; [reflexivity|].
    simpl in H. subst c. simpl. now rewrite D.
Qed.

Lemma to_int_small : forall v, - 2 ^ 31 <= v < 2 ^ 31 -> to_int v = v.
Proof.
  intros v H. unfold to_int. rewrite Z.mod_small; lia.
Qed.

Lemma to_int_min_small : forall v,
  0 <= v < 2 ^ 31 -> to_int (Z.min v LONG_MAX) = v.
Proof.
  intros v H. unfold LONG_MAX. rewrite Z.min_l by lia. apply to_int_small. lia.
Qed.

Lemma atoi_digit : forall c r,
  isdigit c = true ->
  atoi (c :: r) = to_int (Z.min (digits_value (c :: r) 0) LONG_MAX).
Proof.
  intros c r H.
  destruct (isdigit_cases c H) as [-> | [-> | [-> | [-> | [-> | [-> | [-> | [-> | [-> | ->]]]]]]]]];
    reflexivity.
Qed.

Lemma atoi_at : forall buf i,
  isdigit (ch buf i) = true ->
  atoi (skipn i buf) = to_int (Z.min (digits_value (skipn i buf) 0) LONG_MAX).
Proof.
  intros buf i H.
  rewrite (skipn_ch buf i) by now apply isdigit_nonzero.
  now apply atoi_digit.
Qed.

(** Four digits followed by another character parse to their value. *)
Lemma atoi_four_digits : forall buf i,
  isdigit (ch buf i) = true ->
  isdigit (ch buf (S i)) = true ->
  isdigit (ch buf (S (S i))) = true ->
  isdigit (ch buf (S (S (S i)))) = true ->
  isdigit (ch buf (S (S (S (S i))))) = false ->
  atoi (skipn i buf)
  = 1000 * (ch buf i - 48) + 100 * (ch buf (S i) - 48)
    + 10 * (ch buf (S (S i)) - 48) + (ch buf (S (S (S i))) - 48).
Proof.
  intros buf i H0 H1 H2 H3 H4.
  rewrite atoi_at by assumption.
  rewrite digits_value_at, H0, digits_value_at, H1, digits_value_at, H2,
    digits_value_at, H3, digits_value_at, H4.
  apply isdigit_range in H0, H1, H2, H3.
  rewrite to_int_min_small by lia. lia.
Qed.

(** ** C5: the length bit *)

(** C5 (as amended).  The length bit 0x0001 of the mask is set exactly when
    [s - buf], the number of bytes read up to and including the end mark
    0x03, differs from 40; for a datagram closed by its end mark this is when
    the bytes before the end mark are not exactly 39. *)
Theorem length_bit_counts_end_mark :
  (forall buf n, Z.land (validate buf n) 0x0001 <> 0 <-> n <> 40) /\
  (forall payload rest buf0,
     ~ In 3 payload ->
     (List.length payload < LINELEN)%nat ->
     exists buf,
       read_frame (payload ++ 3 :: rest) buf0
       = Some (buf, Z.of_nat (List.length payload) + 1, rest) /\
       (Z.land (validate buf (Z.of_nat (List.length payload) + 1)) 0x0001 <> 0
        <-> List.length payload <> 39%nat)).
Proof.
  assert (G : forall buf n, Z.land (validate buf n) 0x0001 <> 0 <-> n <> 40).
  { intros buf n. rewrite <- Z.eqb_neq.
    change 0x0001 with (2 ^ 0). rewrite land_pow2, length_bit by lia.
    destruct (Z.eqb_spec n 40); simpl; split; congruence. }
  split; [exact G|].
  intros payload rest buf0 Hin Hlen.
  destruct (read_frame_count payload rest buf0 Hin Hlen) as [buf H].
  exists buf. split; [exact H|]. rewrite G. lia.
Qed.

Lemma length_bit_counts_end_mark_witness :
  exists buf,
    read_frame (bytes_of_string example_text ++ 3 :: []) blank
    = Some (buf, Z.of_nat (List.length (bytes_of_string example_text)) + 1, []) /\
    (Z.land (validate buf (Z.of_nat (List.length (bytes_of_string example_text)) + 1)) 0x0001 <> 0
     <-> List.length (bytes_of_string example_text) <> 39%nat).
Proof.
  apply (proj2 length_bit_counts_end_mark).
  - vm_compute. intuition discriminate.
  - vm_compute. lia.
Defined.

(** The datagram of the header comment has 39 bytes before its end mark, not
    40, and passes the length check: the bit does not follow the length
    without the end mark. *)
Lemma length_excluding_end_mark_counterexample :
  ~ (forall payload rest buf0 buf n,
       ~ In 3 payload ->
       read_frame (payload ++ 3 :: rest) buf0 = Some (buf, n, rest) ->
       (Z.land (validate buf n) 0x0001 <> 0 <-> List.length payload <> 40%nat)).
Proof.
  intro H.
  destruct (read_frame (bytes_of_string example_text ++ [3]) blank)
    as [[[buf n] rest]|] eqn:E; [|vm_compute in E; discriminate].
  assert (R : rest = []) by (vm_compute in E; congruence). subst rest.
  specialize (H (bytes_of_string example_text) [] blank buf n).
  assert (V : Z.land (validate buf n) 0x0001 = 0)
    by (vm_compute in E; injection E as <- <-; vm_compute; reflexivity).
  destruct H as [_ H].
  - vm_compute. intuition discriminate.
  - exact E.
  - apply H; [|exact V]. vm_compute. discriminate.
Qed.

(** ** C4: the example datagram with a wrong first character *)

Lemma example_payload_clean :
  ~ In 3 (bytes_of_string example_text) /\ ~ In 3 (bytes_of_string marker_text).
Proof. split; vm_compute; intuition discriminate. Qed.

(** The claim as stated fails: the mask of the altered datagram is not the
    marker bit alone. *)
Lemma marker_only_counterexample :
  exists buf n,
    read_frame (datagram marker_text) blank = Some (buf, n, []) /\
    validate buf n <> 0x0002.
Proof.
  eexists. eexists. split; [vm_compute; reflexivity|].
  vm_compute. discriminate.
Qed.

(** C4 (as amended).  The example datagram passes the sanity checks.  With
    its first character changed from W to X the mask is 0x2002, the marker
    bit together with the checksum bit (the checksum field still holds the
    sum of the unaltered text); the datagram is dropped: the accumulator and
    the buffer are left as they were, nothing is decoded and the only output
    is the syslog message with the mask and the bytes. *)
Theorem marker_changed_mask :
  forall interval use_syslog a ltime rest buf0,
    List.length buf0 = LINELEN ->
    (exists buf,
       read_frame (datagram example_text ++ rest) buf0 = Some (buf, 40, rest) /\
       validate buf 40 = 0) /\
    (exists buf,
       read_frame (datagram marker_text ++ rest) buf0 = Some (buf, 40, rest) /\
       validate buf 40 = 0x2002 /\
       Z.land (validate buf 40) 0x0002 <> 0 /\
       Z.land (validate buf 40) 0x2000 <> 0 /\
       process interval use_syslog a buf 40 ltime
       = Some (a, buf, [SyslogError 0x2002 (datagram marker_text)])).
Proof.
  intros interval use_syslog a ltime rest buf0 Hbuf.
  destruct example_payload_clean as [He Hm].
  split.
  - unfold datagram. rewrite <- app_assoc. cbn [app].
    rewrite read_datagram by (assumption || (vm_compute; lia)).
    eexists. split; [reflexivity|].
    vm_compute. reflexivity.
  - unfold datagram. rewrite <- app_assoc. cbn [app].
    rewrite read_datagram by (assumption || (vm_compute; lia)).
    eexists. split; [reflexivity|].
    assert (V : validate
                  (bytes_of_string marker_text ++
                   3 :: 0 :: skipn (List.length (bytes_of_string marker_text) + 2) buf0) 40
                = 0x2002) by (vm_compute; reflexivity).
    split; [exact V|]. unfold process. rewrite V.
    split; [vm_compute; discriminate|].
    split; [vm_compute; discriminate|].
    reflexivity.
Qed.

Lemma marker_changed_mask_witness :
  (exists buf,
     read_frame (datagram example_text ++ []) blank = Some (buf, 40, []) /\
     validate buf 40 = 0) /\
  (exists buf,
     read_frame (datagram marker_text ++ []) blank = Some (buf, 40, []) /\
     validate buf 40 = 0x2002 /\
     Z.land (validate buf 40) 0x0002 <> 0 /\
     Z.land (validate buf 40) 0x2000 <> 0 /\
     process 60 false initial buf 40 1207234999
     = Some (initial, buf, [SyslogError 0x2002 (datagram marker_text)])).
Proof.
  apply (marker_changed_mask 60 false initial 1207234999 [] blank).
  reflexivity.
Defined.

(** ** C6: the checksum bit *)

Lemma checksum_unfold : forall buf,
  checksum buf = fold_left Z.add (map (ch buf) (seq 0 35)) 0.
Proof.
  intros. unfold checksum.
  assert (G : forall l z, fold_left (fun sum i => sum + ch buf i) l z
                          = fold_left Z.add (map (ch buf) l) z).
  { induction l as [|i l IH]; intros z; simpl; [reflexivity | apply IH]. }
  apply G.
Qed.

Lemma checksum_bit_value : forall buf n,
  Z.testbit (validate buf n) 13
  = negb (Z.land (fold_left apply_check (sanity_checks buf n) 0) 0x1000 =? 0)
    || negb (checksum buf =? atoi (skipn 35 buf)).
Proof.
  intros. unfold validate.
  match goal with |- context [if ?c then _ else _] => destruct c end.
  - rewrite Z.lor_spec. change 0x2000 with (2 ^ 13).
    rewrite Z.pow2_bits_true by lia. apply orb_true_r.
  - apply structural_no_checksum_bit.
Qed.

Lemma digits_bit_value : forall buf n,
  Z.testbit (validate buf n) 12
  = not_numeric buf 35 || not_numeric buf 36 || not_numeric buf 37 || not_numeric buf 38.
Proof.
  intros. rewrite validate_bit by lia.
  unfold sanity_checks. cbn [existsb fst snd]. eval_testbits.
  now rewrite !orb_assoc.
Qed.

(** C6 (as amended).  Where bytes 35-38 are four decimal digits and byte 39
    is not a digit, the checksum bit 0x2000 is set exactly when the sum of
    the byte values at positions 0-34 differs from the number written by
    bytes 35-38; byte 39 of a datagram of the accepted length is the end mark
    and so not a digit.  Whenever the four-digit bit 0x1000 is set, the
    checksum bit is set with it. *)
Theorem checksum_bit_set :
  (forall buf n,
     isdigit (ch buf 35) && isdigit (ch buf 36)
       && isdigit (ch buf 37) && isdigit (ch buf 38) = true ->
     isdigit (ch buf 39) = false ->
     (Z.land (validate buf n) 0x2000 <> 0
      <-> fold_left Z.add (map (ch buf) (seq 0 35)) 0
          <> 1000 * (ch buf 35 - 48) + 100 * (ch buf 36 - 48)
             + 10 * (ch buf 37 - 48) + (ch buf 38 - 48))) /\
  (forall payload rest buf0,
     ~ In 3 payload -> List.length payload = 39%nat ->
     List.length buf0 = LINELEN ->
     exists buf,
       read_frame (payload ++ 3 :: rest) buf0 = Some (buf, 40, rest) /\
       isdigit (ch buf 39) = false) /\
  (forall buf n,
     Z.land (validate buf n) 0x1000 <> 0 -> Z.land (validate buf n) 0x2000 <> 0).
Proof.
  split; [|split].
  - intros buf n Hd H39.
    apply andb_true_iff in Hd. destruct Hd as [Hd H38].
    apply andb_true_iff in Hd. destruct Hd as [Hd H37].
    apply andb_true_iff in Hd. destruct Hd as [H35 H36].
    rewrite <- Z.eqb_neq. change 0x2000 with (2 ^ 13).
    rewrite land_pow2, checksum_bit_value by lia.
    change 0x1000 with (2 ^ 12). rewrite land_pow2, digits_fourth_bit by lia.
    rewrite !not_numeric_isdigit, H35, H36, H37, H38.
    rewrite atoi_four_digits by assumption.
    rewrite <- checksum_unfold. cbn [negb orb].
    destruct (Z.eqb_spec (checksum buf)
                (1000 * (ch buf 35 - 48) + 100 * (ch buf 36 - 48)
                 + 10 * (ch buf 37 - 48) + (ch buf 38 - 48))) as [e|e];
      cbn [negb]; split; intro H;
      try discriminate H; try reflexivity; try exact e; now elim H.
  - intros payload rest buf0 Hin Hlen Hbuf.
    rewrite read_datagram by (assumption || (rewrite Hlen; vm_compute; lia)).
    rewrite Hlen. eexists. split; [reflexivity|].
    unfold ch. rewrite app_nth2 by lia. rewrite Hlen. reflexivity.
  - intros buf n. rewrite <- !Z.eqb_neq.
    change 0x2000 with (2 ^ 13). change 0x1000 with (2 ^ 12).
    rewrite !land_pow2 by lia. rewrite checksum_bit_value.
    change 0x1000 with (2 ^ 12). rewrite land_pow2 by lia.
    rewrite digits_bit_value, digits_fourth_bit.
    destruct (not_numeric buf 35 || not_numeric buf 36
              || not_numeric buf 37 || not_numeric buf 38);
      cbn [negb orb]; intro H; [reflexivity | discriminate H].
Qed.

Lemma checksum_bit_set_witness :
  (Z.land (validate (datagram example_text ++ [0]) 40) 0x2000 <> 0
   <-> fold_left Z.add (map (ch (datagram example_text ++ [0])) (seq 0 35)) 0
       <> 1000 * (ch (datagram example_text ++ [0]) 35 - 48)
          + 100 * (ch (datagram example_text ++ [0]) 36 - 48)
          + 10 * (ch (datagram example_text ++ [0]) 37 - 48)
          + (ch (datagram example_text ++ [0]) 38 - 48)) /\
  (exists buf,
     read_frame (bytes_of_string example_text ++ 3 :: []) blank = Some (buf, 40, []) /\
     isdigit (ch buf 39) = false).
Proof.
  split.
  - apply (proj1 checksum_bit_set (datagram example_text ++ [0]) 40); reflexivity.
  - apply (proj1 (proj2 checksum_bit_set) (bytes_of_string example_text) [] blank).
    + vm_compute. intuition discriminate.
    + reflexivity.
    + reflexivity.
Defined.

(** A datagram with one more digit before its end mark: bytes 35-38 are the
    digits 1889 and the bytes 0-34 sum to 1889, yet the checksum bit is set,
    because the number is parsed up to the first character that is not a
    digit. *)
Lemma checksum_bit_counterexample :
  exists buf n,
    read_frame (datagram long_text) blank = Some (buf, n, []) /\
    isdigit (ch buf 35) && isdigit (ch buf 36)
      && isdigit (ch buf 37) && isdigit (ch buf 38) = true /\
    fold_left Z.add (map (ch buf) (seq 0 35)) 0
    = 1000 * (ch buf 35 - 48) + 100 * (ch buf 36 - 48)
      + 10 * (ch buf 37 - 48) + (ch buf 38 - 48) /\
    Z.land (validate buf n) 0x2000 <> 0.
Proof.
  eexists. eexists. split; [vm_compute; reflexivity|].
  split; [reflexivity|]. split; [reflexivity|].
  vm_compute. discriminate.
Qed.

(** ** The window accumulator *)

Lemma reachable_count : forall interval a, reachable interval a -> 0 <= count a.
Proof.
  intros interval a H. induction H as [|a m ltime a' r H IH E].
  - simpl. lia.
  - unfold accept in E.
    destruct (Z.rem ltime interval <? oldEpoch (accumulate a m)).
    + destruct (close_window (accumulate a m)); [|discriminate].
      injection E as <- _. simpl. lia.
    + injection E as <- _. simpl. lia.
Qed.


Lemma average_defined : forall acc cnt,
  cnt <> 0 -> exists v, average acc cnt = Some v.
Proof.
  intros acc cnt H. unfold average.
  apply Z.eqb_neq in H. rewrite H. eauto.
Qed.


Lemma close_window_defined : forall a,
  count a <> 0 -> exists r, close_window a = Some r.
Proof.
  intros a H. unfold close_window.
  destruct (average_defined (accDawn a) _ H) as [d ->].
  destruct (average_defined (accSunE a) _ H) as [e ->].
  destruct (average_defined (accSunW a) _ H) as [w ->].
  destruct (average_defined (accSunS a) _ H) as [s ->].
  destruct (average_defined (accTemp a) _ H) as [t ->].
  eauto.
Qed.



Lemma accept_keep : forall interval a m ltime,
  (Z.rem ltime interval <? oldEpoch a) = false ->
  accept interval a m ltime
  = Some (set_oldEpoch (accumulate a m) (Z.rem ltime interval), None).
Proof.
  intros interval a m ltime H. unfold accept.
  change (oldEpoch (accumulate a m)) with (oldEpoch a). now rewrite H.
Qed.

Lemma accept_close : forall interval a m ltime,
  (Z.rem ltime interval <? oldEpoch a) = true ->
  0 <= count a ->
  exists r, close_window (accumulate a m) = Some r /\
            accept interval a m ltime
            = Some (cleared (Z.rem ltime interval), Some (stamp interval ltime, r)).
Proof.
  intros interval a m ltime H C. unfold accept.
  change (oldEpoch (accumulate a m)) with (oldEpoch a). rewrite H.
  destruct (close_window_defined (accumulate a m)) as [r E]; [simpl; lia|].
  exists r. now rewrite E.
Qed.

Lemma accept_inv : forall interval a m ltime a' r,
  accept interval a m ltime = Some (a', r) ->
  (Z.rem ltime interval < oldEpoch a /\ a' = cleared (Z.rem ltime interval) /\
   exists rec, r = Some (stamp interval ltime, rec) /\
               close_window (accumulate a m) = Some rec) \/
  (oldEpoch a <= Z.rem ltime interval /\ r = None /\
   a' = set_oldEpoch (accumulate a m) (Z.rem ltime interval)).
Proof.
  intros interval a m ltime a' r E. unfold accept in E.
  change (oldEpoch (accumulate a m)) with (oldEpoch a) in E.
  destruct (Z.ltb_spec (Z.rem ltime interval) (oldEpoch a)).
  - left. destruct (close_window (accumulate a m)) as [rec|]; [|discriminate].
    injection E as <- <-. eauto.
  - right. injection E as <- <-. auto.
Qed.

(** ** C3: when a window closes *)

(** C3.  An accepted sample yields a record exactly when the phase
    [ltime % interval] is strictly below the phase stored by the previous
    accepted sample, and every accepted sample stores its phase.  From the
    initial value -1 the first sample (at a time that is not negative) yields
    no record.  With interval 10, samples at phases 5, 8, 2, 9, 1 yield a
    record at the third and at the fifth sample only. *)
Theorem close_on_phase_wrap :
  forall interval,
    (forall a m ltime,
       reachable interval a ->
       ((exists a' r, accept interval a m ltime = Some (a', Some r))
        <-> Z.rem ltime interval < oldEpoch a)) /\
    (forall a m ltime a' r,
       accept interval a m ltime = Some (a', r) ->
       oldEpoch a' = Z.rem ltime interval) /\
    (forall m ltime,
       0 < interval -> 0 <= ltime ->
       exists a', accept interval initial m ltime = Some (a', None)) /\
    (forall m1 m2 m3 m4 m5,
       exists r3 r5,
         accept_all 10 initial [(m1, 5); (m2, 8); (m3, 12); (m4, 19); (m5, 21)]
         = Some [None; None; Some r3; None; Some r5]).
Proof.
  intros interval. repeat split.
  - intros (a' & r & E). apply accept_inv in E.
    destruct E as [(L & _) | (_ & E & _)]; [exact L | discriminate E].
  - intros L. apply Z.ltb_lt in L.
    destruct (accept_close interval a m ltime L) as (r & _ & E).
    + eapply reachable_count; eassumption.
    + eauto.
  - intros a m ltime a' r E. apply accept_inv in E.
    destruct E as [(_ & -> & _) | (_ & _ & ->)]; reflexivity.
  - intros m ltime Hi Ht. eexists. apply accept_keep.
    apply Z.ltb_ge. change (oldEpoch initial) with (-1).
    pose proof (Z.rem_nonneg ltime interval). lia.
  - intros m1 m2 m3 m4 m5. cbn [accept_all].
    rewrite accept_keep by reflexivity.
    rewrite accept_keep by reflexivity.
    destruct (accept_close 10 (set_oldEpoch (accumulate
                (set_oldEpoch (accumulate initial m1) (Z.rem 5 10)) m2) (Z.rem 8 10))
                m3 12) as (r3 & _ & E3); [reflexivity | simpl; lia |].
    rewrite E3.
    rewrite accept_keep by reflexivity.
    destruct (accept_close 10 (set_oldEpoch (accumulate (cleared (Z.rem 12 10)) m4)
                                 (Z.rem 19 10)) m5 21)
      as (r5 & _ & E5); [reflexivity | simpl; lia |].
    rewrite E5. cbn [option_map accept_all]. eauto.
Qed.

Lemma close_on_phase_wrap_witness :
  ((exists a' r,
      accept 60 initial example_sample 1207234999 = Some (a', Some r))
   <-> Z.rem 1207234999 60 < oldEpoch initial) /\
  (exists a',
     accept 60 initial example_sample 1207234999 = Some (a', None)).
Proof.
  split.
  - apply (proj1 (close_on_phase_wrap 60)). apply reach_initial.
  - apply (proj1 (proj2 (proj2 (close_on_phase_wrap 60)))); lia.
Defined.

(** ** C7: no division by zero *)





(** ** C10: the sample that crosses the boundary *)

(** C10.  When an accepted sample closes the window, it has been folded in
    before: the count behind the record is the previous count plus one, hence
    at least 1, every average is taken over the sums including the sample,
    every maximum includes it, and the accumulator after the close has count,
    sums and maxima all 0. *)
Theorem close_includes_crossing_sample :
  forall interval a m ltime a' e r,
    reachable interval a ->
    accept interval a m ltime = Some (a', Some (e, r)) ->
    (count (accumulate a m) = count a + 1 /\ 1 <= count (accumulate a m)) /\
    (average (accTemp a + temp m) (count a + 1) = Some (avgTemp r) /\
     average (accDawn a + dawn m) (count a + 1) = Some (avgDawn r) /\
     average (accSunS a + sunS m) (count a + 1) = Some (avgSunS r) /\
     average (accSunW a + sunW m) (count a + 1) = Some (avgSunW r) /\
     average (accSunE a + sunE m) (count a + 1) = Some (avgSunE r)) /\
    (outWind r = Z.max (maxWind a) (wind m) /\
     outRain r = Z.max (maxRain a) (rain m) /\
     outObsc r = Z.max (maxObsc a) (obsc m)) /\
    (count a' = 0 /\ accTemp a' = 0 /\ accDawn a' = 0 /\ accSunS a' = 0 /\
     accSunW a' = 0 /\ accSunE a' = 0 /\
     maxWind a' = 0 /\ maxRain a' = 0 /\ maxObsc a' = 0).
Proof.
  intros interval a m ltime a' e r R E.
  pose proof (reachable_count _ _ R) as C.
  apply accept_inv in E.
  destruct E as [(_ & -> & rec & Er & Ec) | (_ & Er & _)]; [|discriminate Er].
  injection Er as -> ->.
  split; [simpl; lia|].
  unfold close_window in Ec. cbn [accumulate accDawn accSunE accSunW accSunS accTemp
                                   count maxObsc maxWind maxRain] in Ec.
  destruct (average (accDawn a + dawn m) (count a + 1)) as [d|]; [|discriminate].
  destruct (average (accSunE a + sunE m) (count a + 1)) as [se|]; [|discriminate].
  destruct (average (accSunW a + sunW m) (count a + 1)) as [sw|]; [|discriminate].
  destruct (average (accSunS a + sunS m) (count a + 1)) as [ss|]; [|discriminate].
  destruct (average (accTemp a + temp m) (count a + 1)) as [t|]; [|discriminate].
  injection Ec as <-. cbn [avgTemp avgDawn avgSunS avgSunW avgSunE outWind outRain outObsc].
  split; [repeat split|]. split; [|repeat split].
  repeat split.
  - destruct (Z.gtb_spec (wind m) (maxWind a)); lia.
  - destruct (Z.gtb_spec (rain m) (maxRain a)); lia.
  - destruct (Z.gtb_spec (obsc m) (maxObsc a)); lia.
Qed.

Lemma close_includes_crossing_sample_witness :
  let a := set_oldEpoch (accumulate initial example_sample) (Z.rem 59 60) in
  let r := {| avgTemp := 76; avgSunS := 1; avgSunW := 63; avgSunE := 0;
              outObsc := 111; avgDawn := 999; outWind := 12; outRain := 114 |} in
  accept 60 a example_sample 60 = Some (cleared 0, Some (60, r)) /\
  count (accumulate a example_sample) = 2 /\
  average (accDawn a + dawn example_sample) (count a + 1) = Some (avgDawn r) /\
  outWind r = Z.max (maxWind a) (wind example_sample) /\
  count (cleared 0) = 0.
Proof.
  intros a r.
  assert (R : reachable 60 a).
  { apply (reach_accept 60 initial example_sample 59 a None).
    - apply reach_initial.
    - apply accept_keep. reflexivity. }
  assert (E : accept 60 a example_sample 60 = Some (cleared 0, Some (60, r)))
    by (vm_compute; reflexivity).
  pose proof (close_includes_crossing_sample 60 a example_sample 60 _ _ _ R E)
    as (H1 & H2 & H3 & H4).
  split; [exact E|]. split; [reflexivity|].
  split; [apply H2|]. split; [apply H3 | apply H4].
Defined.

(** ** C8: a datagram that fails the sanity checks *)

(** The copy handed to syslog is the datagram as read, end mark included,
    when that holds no NUL and fits the copy. *)
Lemma bufcpy_datagram : forall bytes tl k,
  ~ In 0 bytes -> (List.length bytes <= k)%nat ->
  strncpy k (bytes ++ 0 :: tl) = bytes.
Proof.
  induction bytes as [|c r IH]; intros tl k Hin Hlen.
  - destruct k; reflexivity.
  - destruct k as [|k]; [simpl in Hlen; lia|].
    cbn [app strncpy].
    assert (Hc : (c =? 0) = false) by (apply Z.eqb_neq; intro; apply Hin; left; auto).
    rewrite Hc. f_equal. apply IH.
    + intro. apply Hin. now right.
    + simpl in Hlen. lia.
Qed.

Lemma process_invalid :
  forall interval use_syslog a buf n ltime,
    validate buf n <> 0 ->
    process interval use_syslog a buf n ltime
    = Some (a, buf, [SyslogError (validate buf n) (strncpy (LINELEN - 1) buf)]).
Proof.
  intros interval use_syslog a buf n ltime V.
  unfold process. apply Z.eqb_neq in V. now rewrite V.
Qed.

Lemma strncpy_nul : forall p tl k,
  ~ In 0 p -> (List.length p <= k)%nat -> strncpy k (p ++ 0 :: tl) = p.
Proof. intros. now apply bufcpy_datagram. Qed.

(** The claim as stated fails: the example datagram with a NUL in place of
    the point of its temperature is dropped, and the message shows the four
    bytes before the NUL, not the bytes of the datagram. *)
Lemma raw_bytes_counterexample :
  exists buf n text,
    read_frame nul_datagram blank = Some (buf, n, []) /\
    validate buf n <> 0 /\
    process 60 false initial buf n 59
    = Some (initial, buf, [SyslogError (validate buf n) text]) /\
    text = bytes_of_string "W+07" /\
    text <> nul_datagram.
Proof.
  do 3 eexists. split; [vm_compute; reflexivity|].
  split; [vm_compute; discriminate|].
  split; [vm_compute; reflexivity|].
  split; [reflexivity | vm_compute; discriminate].
Qed.

(** C8 (as amended).  A datagram of at most 148 bytes, end mark included,
    whose mask is not 0 is neither decoded nor written to the snapshot file:
    the iteration leaves the accumulator (count, sums, maxima and stored
    phase) as it is, its only output is the syslog message with the mask and
    a text, and the loop goes on with the next datagram from the unchanged
    accumulator.  The text is the datagram up to its first NUL byte: all of
    its bytes, the end mark included, when it holds no NUL, and only the
    bytes before the NUL otherwise. *)
Theorem invalid_datagram_report :
  forall interval use_syslog a ltime clock payload rest buf0 buf n,
    ~ In 3 payload ->
    (List.length payload + 3 <= LINELEN)%nat ->
    List.length buf0 = LINELEN ->
    read_frame (payload ++ 3 :: rest) buf0 = Some (buf, n, rest) ->
    validate buf n <> 0 ->
    exists text,
      process interval use_syslog a buf n ltime
      = Some (a, buf, [SyslogError (validate buf n) text]) /\
      main_loop interval use_syslog (ltime :: clock) (payload ++ 3 :: rest) buf0 a
      = match main_loop interval use_syslog clock rest buf a with
        | Some (a', buf', out) =>
            Some (a', buf', SyslogError (validate buf n) text :: out)
        | None => None
        end /\
      (~ In 0 payload -> text = payload ++ [3]) /\
      (forall p1 p2, payload = p1 ++ 0 :: p2 -> ~ In 0 p1 -> text = p1).
Proof.
  intros interval use_syslog a ltime clock payload rest buf0 buf n H3 Hlen Hbuf R V.
  pose proof (read_datagram payload rest buf0 H3 Hbuf ltac:(lia)) as R'.
  rewrite R in R'. injection R' as B N.
  pose proof (process_invalid interval use_syslog a buf n ltime V) as P.
  exists (strncpy (LINELEN - 1) buf). split; [exact P|]. split.
  - cbn [main_loop]. rewrite R, P.
    destruct (main_loop interval use_syslog clock rest buf a) as [[[a' buf'] out]|];
      reflexivity.
  - split.
    + intros H0. rewrite B.
      change (payload ++ 3 :: 0 :: skipn (List.length payload + 2) buf0)
        with (payload ++ [3] ++ 0 :: skipn (List.length payload + 2) buf0).
      rewrite app_assoc. apply strncpy_nul.
      * intro F. apply in_app_or in F. destruct F as [F|[F|[]]]; [auto | discriminate F].
      * rewrite length_app. unfold LINELEN in *. simpl. lia.
    + intros p1 p2 E H0. rewrite B, E.
      rewrite <- app_assoc. cbn [app]. apply strncpy_nul; [exact H0|].
      rewrite E, length_app in Hlen. unfold LINELEN in *. simpl in *. lia.
Qed.

Lemma invalid_datagram_report_witness :
  exists text,
    process 60 false initial (datagram marker_text ++ 0 :: skipn 41 blank) 40 59
    = Some (initial, datagram marker_text ++ 0 :: skipn 41 blank,
            [SyslogError (validate (datagram marker_text ++ 0 :: skipn 41 blank) 40) text]) /\
    main_loop 60 false [59; 60]
      (bytes_of_string marker_text ++ 3 :: datagram example_text) blank initial
    = match main_loop 60 false [60] (datagram example_text)
              (datagram marker_text ++ 0 :: skipn 41 blank) initial with
      | Some (a', buf', out) =>
          Some (a', buf',
                SyslogError (validate (datagram marker_text ++ 0 :: skipn 41 blank) 40) text
                :: out)
      | None => None
      end /\
    (~ In 0 (bytes_of_string marker_text) -> text = bytes_of_string marker_text ++ [3]) /\
    (forall p1 p2, bytes_of_string marker_text = p1 ++ 0 :: p2 -> ~ In 0 p1 -> text = p1).
Proof.
  apply (invalid_datagram_report 60 false initial 59 [60]
           (bytes_of_string marker_text) (datagram example_text) blank).
  - vm_compute. intuition discriminate.
  - vm_compute. lia.
  - reflexivity.
  - vm_compute. reflexivity.
  - vm_compute. discriminate.
Defined.

(** ** What a datagram that passed the sanity checks looks like *)

Lemma check_eq : forall x k, negb (x =? k) = false -> x = k.
Proof. intros x k H. apply negb_false_iff in H. now apply Z.eqb_eq. Qed.

Lemma check_either : forall x j k,
  negb (x =? j) && negb (x =? k) = false -> x = j \/ x = k.
Proof.
  intros x j k H. apply andb_false_iff in H.
  destruct H as [H|H]; apply check_eq in H; auto.
Qed.

Lemma check_digit : forall buf i, not_numeric buf i = false -> isdigit (ch buf i) = true.
Proof.
  intros buf i H. rewrite not_numeric_isdigit in H. now apply negb_false_iff.
Qed.

Lemma validate_zero : forall buf n,
  validate buf n = 0 ->
  fold_left apply_check (sanity_checks buf n) 0 = 0 /\
  checksum buf = atoi (skipn 35 buf).
Proof.
  intros buf n H. unfold validate in H.
  destruct (negb (Z.land (fold_left apply_check (sanity_checks buf n) 0) 0x1000 =? 0)
            || negb (checksum buf =? atoi (skipn 35 buf))) eqn:E.
  - apply Z.lor_eq_0_iff in H. destruct H as [_ H]. discriminate H.
  - split; [exact H|]. apply orb_false_iff in E. destruct E as [_ E].
    now apply check_eq.
Qed.

Lemma validate_well_formed : forall buf n, validate buf n = 0 -> well_formed buf n.
Proof.
  intros buf n H. apply validate_zero in H. destruct H as [H S].
  apply checks_zero in H. destruct H as [_ H].
  unfold sanity_checks in H.
  repeat match goal with
         | F : Forall _ (_ :: _) |- _ =>
             let P := fresh "P" in
             apply Forall_cons_iff in F; destruct F as [P F];
             cbn [fst snd] in P; specialize (P ltac:(discriminate))
         end.
  clear H.
  repeat match goal with
         | P : not_numeric _ _ = false |- _ => apply check_digit in P
         | P : negb (_ =? _) && negb (_ =? _) = false |- _ => apply check_either in P
         | P : negb (_ =? _) = false |- _ => apply check_eq in P
         end.
  constructor; try assumption.
  - repeat (constructor; [assumption|]). constructor.
  - split; assumption.
  - cbn [map seq].
    change (bytes_of_string "?151515151515?")
      with [63; 49; 53; 49; 53; 49; 53; 49; 53; 49; 53; 49; 53; 63].
    repeat (apply f_equal2; [assumption|]). reflexivity.
Qed.

Lemma skip_digits_at : forall buf i,
  skip_digits (skipn i buf)
  = if isdigit (ch buf i) then skip_digits (skipn (S i) buf) else skipn i buf.
Proof.
  intros buf i.
  destruct (isdigit (ch buf i)) eqn:D.
  - rewrite (skipn_ch buf i) by now apply isdigit_nonzero.
    simpl. now rewrite D.
  - pose proof (skipn_ch_head buf i) as H.
    destruct (skipn i buf) as [|c r]; [reflexivity|].
    simpl in H. subst c. simpl. now rewrite D.
Qed.

Lemma digits_count_at : forall buf i,
  digits_count (skipn i buf)
  = if isdigit (ch buf i) then S (digits_count (skipn (S i) buf)) else O.
Proof.
  intros buf i.
  destruct (isdigit (ch buf i)) eqn:D.
  - rewrite (skipn_ch buf i) by now apply isdigit_nonzero.
    simpl. now rewrite D.
  - pose proof (skipn_ch_head buf i) as H.
    destruct (skipn i buf) as [|c r]; [reflexivity|].
    simpl in H. subst c. simpl. now rewrite D.
Qed.

(** The text [DD.D] at position [i], ended by a character that is no digit,
    is read as the double nearest to its value. *)
Lemma unsigned_decimal_field : forall buf i,
  isdigit (ch buf i) = true ->
  isdigit (ch buf (S i)) = true ->
  ch buf (S (S i)) = 46 ->
  isdigit (ch buf (S (S (S i)))) = true ->
  isdigit (ch buf (S (S (S (S i))))) = false ->
  unsigned_decimal (skipn i buf)
  = decimal (100 * (ch buf i - 48) + 10 * (ch buf (S i) - 48)
             + (ch buf (S (S (S i))) - 48)) 1.
Proof.
  intros buf i H0 H1 H2 H3 H4.
  assert (P : isdigit (ch buf (S (S i))) = false) by now rewrite H2.
  unfold unsigned_decimal.
  rewrite skip_digits_at, H0, skip_digits_at, H1, skip_digits_at, P.
  rewrite (skipn_ch buf (S (S i))) by (rewrite H2; discriminate).
  rewrite H2. cbv beta iota zeta.
  rewrite digits_count_at, H3, digits_count_at, H4.
  rewrite (digits_value_at buf i), H0, (digits_value_at buf (S i)), H1,
    (digits_value_at buf (S (S i))), P.
  rewrite (digits_value_at buf (S (S (S i)))), H3,
    (digits_value_at buf (S (S (S (S i))))), H4.
  f_equal. lia.
Qed.

Lemma atof_digit : forall c r,
  isdigit c = true -> atof (c :: r) = unsigned_decimal (c :: r).
Proof.
  intros c r H.
  destruct (isdigit_cases c H) as [-> | [-> | [-> | [-> | [-> | [-> | [-> | [-> | [-> | ->]]]]]]]]];
    reflexivity.
Qed.

Lemma atof_at : forall buf i,
  isdigit (ch buf i) = true -> atof (skipn i buf) = unsigned_decimal (skipn i buf).
Proof.
  intros buf i H.
  rewrite (skipn_ch buf i) by now apply isdigit_nonzero.
  now apply atof_digit.
Qed.

(** ** C9: tenths of temperature and wind *)

Lemma tenths_table : forallb tenths_agree (map Z.of_nat (seq 0 1000)) = true.
Proof. vm_compute. reflexivity. Qed.

Lemma tenths_exact : forall n,
  0 <= n <= 999 ->
  D2int (Dmul (decimal n 1) (Z2D 10)) = n /\
  D2int (Dmul (SFopp (decimal n 1)) (Z2D 10)) = - n.
Proof.
  intros n H.
  pose proof tenths_table as T. rewrite forallb_forall in T.
  specialize (T n). unfold tenths_agree in T.
  rewrite andb_true_iff, !Z.eqb_eq in T. apply T.
  replace n with (Z.of_nat (Z.to_nat n)) by lia.
  apply in_map, in_seq. lia.
Qed.

Lemma digit_value_range : forall c, isdigit c = true -> 0 <= c - 48 <= 9.
Proof. intros c H. apply isdigit_range in H. lia. Qed.

Lemma scaled_field : forall buf i,
  isdigit (ch buf i) = true ->
  isdigit (ch buf (S i)) = true ->
  ch buf (S (S i)) = 46 ->
  isdigit (ch buf (S (S (S i)))) = true ->
  isdigit (ch buf (S (S (S (S i))))) = false ->
  D2int (Dmul (unsigned_decimal (skipn i buf)) (Z2D 10))
  = 100 * (ch buf i - 48) + 10 * (ch buf (S i) - 48) + (ch buf (S (S (S i))) - 48) /\
  D2int (Dmul (SFopp (unsigned_decimal (skipn i buf))) (Z2D 10))
  = - (100 * (ch buf i - 48) + 10 * (ch buf (S i) - 48) + (ch buf (S (S (S i))) - 48)).
Proof.
  intros buf i H0 H1 H2 H3 H4.
  rewrite unsigned_decimal_field by assumption.
  apply tenths_exact.
  apply digit_value_range in H0, H1, H3. lia.
Qed.

Lemma signed_text : forall buf i,
  ch buf i = 43 \/ ch buf i = 45 ->
  atof (skipn i buf)
  = if ch buf i =? 45
    then SFopp (unsigned_decimal (skipn (S i) buf))
    else unsigned_decimal (skipn (S i) buf).
Proof.
  intros buf i [H|H]; rewrite (skipn_ch buf i) by (rewrite H; discriminate);
    rewrite H; reflexivity.
Qed.

Lemma decode_wind : forall buf,
  wind (fst (decode buf)) = D2int (Dmul (atof (skipn 16 (upd 20 0 buf))) (Z2D 10)).
Proof. reflexivity. Qed.

Lemma decode_temp : forall buf,
  temp (fst (decode buf)) = D2int (Dmul (atof (skipn 1 (carved buf))) (Z2D 10)).
Proof. reflexivity. Qed.

Lemma well_formed_wind : forall buf n,
  well_formed buf n ->
  wind (fst (decode buf))
  = 100 * (ch buf 16 - 48) + 10 * (ch buf 17 - 48) + (ch buf 19 - 48).
Proof.
  intros buf n W. rewrite decode_wind.
  pose proof (wf_digits _ _ W) as D. pose proof (wf_points _ _ W) as [_ P].
  repeat match goal with
         | F : Forall _ (_ :: _) |- _ =>
             let Q := fresh "Q" in
             apply Forall_cons_iff in F; destruct F as [Q F]
         end.
  rewrite atof_at by (rewrite ch_upd_nul; assumption).
  pose proof (scaled_field (upd 20 0 buf) 16) as S.
  rewrite !ch_upd_nul in S. cbn [Nat.eqb] in S.
  now apply S.
Qed.

Lemma well_formed_temp : forall buf n,
  well_formed buf n ->
  temp (fst (decode buf))
  = (if ch buf 1 =? 45 then -1 else 1)
    * (100 * (ch buf 2 - 48) + 10 * (ch buf 3 - 48) + (ch buf 5 - 48)).
Proof.
  intros buf n W. rewrite decode_temp.
  pose proof (wf_digits _ _ W) as D. pose proof (wf_points _ _ W) as [P _].
  pose proof (wf_sign _ _ W) as G.
  repeat match goal with
         | F : Forall _ (_ :: _) |- _ =>
             let Q := fresh "Q" in
             apply Forall_cons_iff in F; destruct F as [Q F]
         end.
  assert (C : forall j, ch (carved buf) j
                        = if (Nat.eqb j 6 || Nat.eqb j 8 || Nat.eqb j 10
                              || Nat.eqb j 12 || Nat.eqb j 16 || Nat.eqb j 20)%bool
                          then 0 else ch buf j).
  { intro j. unfold carved. rewrite !ch_upd_nul.
    destruct (Nat.eqb j 6), (Nat.eqb j 8), (Nat.eqb j 10), (Nat.eqb j 12),
      (Nat.eqb j 16), (Nat.eqb j 20); reflexivity. }
  rewrite signed_text by (rewrite C; exact G).
  pose proof (scaled_field (carved buf) 2) as S.
  rewrite !C in *. cbn [Nat.eqb orb] in *.
  destruct S as [S1 S2]; try assumption; try reflexivity.
  destruct G as [G|G]; rewrite G; cbn [Z.eqb Pos.eqb].
  - rewrite S1. lia.
  - rewrite S2. lia.
Qed.

Lemma text_tenths : forall a b c,
  isdigit a = true -> isdigit b = true -> isdigit c = true ->
  D2int (Dmul (atof [a; b; 46; c]) (Z2D 10))
  = 100 * (a - 48) + 10 * (b - 48) + (c - 48).
Proof.
  intros a b c Ha Hb Hc.
  change [a; b; 46; c] with (skipn 0 [a; b; 46; c]).
  rewrite atof_at by exact Ha.
  now apply (scaled_field [a; b; 46; c] 0).
Qed.

Lemma signed_text_tenths : forall s a b c,
  s = 43 \/ s = 45 ->
  isdigit a = true -> isdigit b = true -> isdigit c = true ->
  D2int (Dmul (atof [s; a; b; 46; c]) (Z2D 10))
  = (if s =? 45 then -1 else 1) * (100 * (a - 48) + 10 * (b - 48) + (c - 48)).
Proof.
  intros s a b c Hs Ha Hb Hc.
  change [s; a; b; 46; c] with (skipn 0 [s; a; b; 46; c]).
  rewrite signed_text by exact Hs.
  destruct (scaled_field [s; a; b; 46; c] 1) as [S1 S2];
    try assumption; try reflexivity.
  change (ch [s; a; b; 46; c] 0) with s.
  change (ch [s; a; b; 46; c] 1) with a in *.
  change (ch [s; a; b; 46; c] 2) with b in *.
  change (ch [s; a; b; 46; c] 4) with c in *.
  destruct Hs as [-> | ->]; cbn [Z.eqb Pos.eqb].
  - rewrite S1. lia.
  - rewrite S2. lia.
Qed.

(** C9.  For every datagram that passed the sanity checks, the wind and the
    temperature are the cast to [int] of ten times the double parsed from
    the text of the field, and this is exactly the number of tenths the text
    names (negated under a minus sign).  The cast drops the fraction and
    never rounds: 1.29 scaled is 12 and -1.29 scaled is -12.  The text 01.2
    gives 12 and the text +07.6 gives 76. *)
Theorem decode_truncates_tenths :
  (forall buf n,
     validate buf n = 0 ->
     wind (fst (decode buf))
     = D2int (Dmul (atof [ch buf 16; ch buf 17; ch buf 18; ch buf 19]) (Z2D 10)) /\
     wind (fst (decode buf))
     = 100 * (ch buf 16 - 48) + 10 * (ch buf 17 - 48) + (ch buf 19 - 48) /\
     temp (fst (decode buf))
     = D2int (Dmul (atof [ch buf 1; ch buf 2; ch buf 3; ch buf 4; ch buf 5]) (Z2D 10)) /\
     temp (fst (decode buf))
     = (if ch buf 1 =? 45 then -1 else 1)
       * (100 * (ch buf 2 - 48) + 10 * (ch buf 3 - 48) + (ch buf 5 - 48))) /\
  (D2int (Dmul (atof (bytes_of_string "1.29")) (Z2D 10)) = 12 /\
   D2int (Dmul (atof (bytes_of_string "-1.29")) (Z2D 10)) = -12 /\
   D2int (Dmul (atof (bytes_of_string "0.09")) (Z2D 10)) = 0) /\
  (D2int (Dmul (atof (bytes_of_string "01.2")) (Z2D 10)) = 12 /\
   D2int (Dmul (atof (bytes_of_string "+07.6")) (Z2D 10)) = 76).
Proof.
  split; [|split; [repeat split | split]; vm_compute; reflexivity].
  intros buf n V. apply validate_well_formed in V.
  pose proof (well_formed_wind _ _ V) as Hw.
  pose proof (well_formed_temp _ _ V) as Ht.
  pose proof (wf_digits _ _ V) as D. pose proof (wf_points _ _ V) as [P4 P18].
  pose proof (wf_sign _ _ V) as G.
  repeat match goal with
         | F : Forall _ (_ :: _) |- _ =>
             let Q := fresh "Q" in
             apply Forall_cons_iff in F; destruct F as [Q F]
         end.
  rewrite Hw, Ht, P4, P18.
  rewrite text_tenths, signed_text_tenths by assumption.
  repeat split; reflexivity.
Qed.

Lemma decode_truncates_tenths_witness :
  wind (fst (decode (datagram example_text ++ [0]))) = 12 /\
  temp (fst (decode (datagram example_text ++ [0]))) = 76.
Proof.
  destruct (proj1 decode_truncates_tenths (datagram example_text ++ [0]) 40)
    as (_ & W & _ & T).
  - vm_compute. reflexivity.
  - split; [rewrite W | rewrite T]; reflexivity.
Defined.

(** ** C1: the averages *)

Lemma half_table : forallb half_agree (map Z.of_nat (seq 0 1000)) = true.
Proof. vm_compute. reflexivity. Qed.

Lemma half_added : forall q,
  0 <= q <= 999 ->
  D2int (Dadd (Z2D q) half) = q /\ D2int (Dadd (Z2D (- q - 1)) half) = - q.
Proof.
  intros q H.
  pose proof half_table as T. rewrite forallb_forall in T.
  specialize (T q). unfold half_agree in T.
  rewrite andb_true_iff, !Z.eqb_eq in T. apply T.
  replace q with (Z.of_nat (Z.to_nat q)) by lia.
  apply in_map, in_seq. lia.
Qed.

(** The average of a sum that is not negative is the integer quotient: the
    fraction is dropped by the division before [.5] is added. *)
Lemma average_floor : forall acc cnt,
  0 < cnt -> 0 <= acc <= 999 * cnt -> average acc cnt = Some (acc / cnt).
Proof.
  intros acc cnt Hc Ha. unfold average.
  replace (cnt =? 0) with false by (symmetry; apply Z.eqb_neq; lia).
  rewrite Z.quot_div_nonneg by lia.
  f_equal. apply half_added. split.
  - apply Z.div_pos; lia.
  - apply Z.div_le_upper_bound; lia.
Qed.

(** C1 (the source departs from it).  A sum of 5 over 2 samples is averaged
    to 2, not to 3: two datagrams with dawn 002 and 003, read at the seconds
    59 and 60 with the default interval, close a window whose record has
    dawn 2.  A single sample of -7.6 degrees is averaged to -7.5. *)
Theorem average_five_over_two :
  average 5 2 = Some 2 /\
  (accDawn (window 0 [dawn2_rain_sample; dawn3_dry_sample]) = 5 /\
   count (window 0 [dawn2_rain_sample; dawn3_dry_sample]) = 2) /\
  (exists buf,
     main_loop 60 false [59; 60]
       (datagram dawn2_rain_text ++ datagram dawn3_dry_text) blank initial
     = Some (cleared 0, buf,
             [Snapshot dawn2_rain_sample; Snapshot dawn3_dry_sample;
              LogLine 60
                {| avgTemp := 76; avgSunS := 1; avgSunW := 63; avgSunE := 0;
                   outObsc := 111; avgDawn := 2; outWind := 12; outRain := 114 |}])) /\
  average (-76) 1 = Some (-75).
Proof.
  split; [vm_compute; reflexivity|].
  split; [split; reflexivity|].
  split; [|vm_compute; reflexivity].
  eexists. vm_compute. reflexivity.
Qed.

(** ** C2: the rain and obscurity characters *)

Lemma fold_max_upper : forall l x,
  (forall c, In c l -> c = 82 \/ c = 114) ->
  (fold_left Z.max l x = 82
   <-> x <= 82 /\ (forall c, In c l -> c = 82) /\ (x = 82 \/ l <> [])).
Proof.
  induction l as [|c l IH]; intros x H.
  - simpl. split.
    + intros ->. split; [lia|]. split; [tauto | auto].
    + intros (_ & _ & [E|E]); [exact E | congruence].
  - cbn [fold_left]. rewrite IH by (intros; apply H; now right).
    destruct (H c (or_introl eq_refl)) as [-> | ->].
    + split.
      * intros (A & B & _). split; [lia|]. split; [|right; discriminate].
        intros d [<-|D]; [reflexivity | now apply B].
      * intros (A & B & _). split; [lia|]. split; [|left; lia].
        intros d D. apply B. now right.
    + split.
      * intros (A & _). lia.
      * intros (_ & B & _). specialize (B 114 (or_introl eq_refl)). discriminate.
Qed.

Lemma window_maxima : forall ms a,
  maxRain (fold_left accumulate ms a) = fold_left Z.max (map rain ms) (maxRain a) /\
  maxObsc (fold_left accumulate ms a) = fold_left Z.max (map obsc ms) (maxObsc a).
Proof.
  induction ms as [|m ms IH]; intros a; [split; reflexivity|].
  cbn [fold_left map]. destruct (IH (accumulate a m)) as [-> ->].
  cbn [accumulate maxRain maxObsc].
  split; f_equal.
  - destruct (Z.gtb_spec (rain m) (maxRain a)); lia.
  - destruct (Z.gtb_spec (obsc m) (maxObsc a)); lia.
Qed.

(** What the source computes: the rain character of a window is the capital
    R only when every sample of the window was taken in rain. *)
Lemma window_rain_upper : forall e ms,
  (forall m, In m ms -> rain m = 82 \/ rain m = 114) ->
  (maxRain (window e ms) = 82 <-> ms <> [] /\ forall m, In m ms -> rain m = 82).
Proof.
  intros e ms H. unfold window.
  rewrite (proj1 (window_maxima ms (cleared e))).
  rewrite fold_max_upper.
  - cbn [cleared maxRain]. split.
    + intros (_ & B & [C|C]); [discriminate C|].
      split; [intros ->; now apply C|].
      intros m M. apply B. now apply in_map.
    + intros (C & B). split; [lia|]. split.
      * intros c M. apply in_map_iff in M. destruct M as (m & <- & M). now apply B.
      * right. destruct ms; [congruence | discriminate].
  - intros c M. apply in_map_iff in M. destruct M as (m & <- & M). now apply H.
Qed.

(** C2 (the source departs from it).  A window of two samples, the first
    taken in the dark and in rain (characters O and R), the second bright and
    dry, closes with the lowercase characters o and r in its record although
    both events were active in the window: the maximum of the characters is
    taken by character code, and the lowercase letters are the larger. *)
Theorem mixed_window_characters :
  (obsc dark_rain_sample = 79 /\ rain dark_rain_sample = 82) /\
  (exists buf,
     main_loop 60 false [59; 60]
       (datagram dark_rain_text ++ datagram dawn3_dry_text) blank initial
     = Some (cleared 0, buf,
             [Snapshot dark_rain_sample; Snapshot dawn3_dry_sample;
              LogLine 60
                {| avgTemp := 76; avgSunS := 1; avgSunW := 63; avgSunE := 0;
                   outObsc := 111; avgDawn := 2; outWind := 12; outRain := 114 |}])) /\
  (maxRain (window 0 [dark_rain_sample; dawn3_dry_sample]) = 114 /\
   maxObsc (window 0 [dark_rain_sample; dawn3_dry_sample]) = 111).
Proof.
  split; [split; reflexivity|].
  split; [|split; reflexivity].
  eexists. vm_compute. reflexivity.
Qed.

(** ** The other fields, and the size of the accumulators *)

Lemma atoi_two_digits : forall buf i,
  isdigit (ch buf i) = true ->
  isdigit (ch buf (S i)) = true ->
  isdigit (ch buf (S (S i))) = false ->
  atoi (skipn i buf) = 10 * (ch buf i - 48) + (ch buf (S i) - 48).
Proof.
  intros buf i H0 H1 H2.
  rewrite atoi_at by assumption.
  rewrite digits_value_at, H0, digits_value_at, H1, digits_value_at, H2.
  apply isdigit_range in H0, H1.
  rewrite to_int_min_small by lia. lia.
Qed.

Lemma atoi_three_digits : forall buf i,
  isdigit (ch buf i) = true ->
  isdigit (ch buf (S i)) = true ->
  isdigit (ch buf (S (S i))) = true ->
  isdigit (ch buf (S (S (S i)))) = false ->
  atoi (skipn i buf)
  = 100 * (ch buf i - 48) + 10 * (ch buf (S i) - 48) + (ch buf (S (S i)) - 48).
Proof.
  intros buf i H0 H1 H2 H3.
  rewrite atoi_at by assumption.
  rewrite digits_value_at, H0, digits_value_at, H1, digits_value_at, H2,
    digits_value_at, H3.
  apply isdigit_range in H0, H1, H2.
  rewrite to_int_min_small by lia. lia.
Qed.

(** Decoding a datagram that passed the sanity checks: every field is the
    number its text names, within the range of the format. *)
Lemma well_formed_decode : forall buf n,
  well_formed buf n ->
  dawn (fst (decode buf))
  = 100 * (ch buf 13 - 48) + 10 * (ch buf 14 - 48) + (ch buf 15 - 48) /\
  sunE (fst (decode buf)) = 10 * (ch buf 10 - 48) + (ch buf 11 - 48) /\
  sunW (fst (decode buf)) = 10 * (ch buf 8 - 48) + (ch buf 9 - 48) /\
  sunS (fst (decode buf)) = 10 * (ch buf 6 - 48) + (ch buf 7 - 48) /\
  rain (fst (decode buf)) = (if ch buf 20 =? 74 then 82 else 114) /\
  obsc (fst (decode buf)) = (if ch buf 12 =? 74 then 79 else 111) /\
  snd (decode buf) = carved buf /\
  in_range (fst (decode buf)).
Proof.
  intros buf n W.
  pose proof (well_formed_wind _ _ W) as Hw.
  pose proof (well_formed_temp _ _ W) as Ht.
  pose proof (wf_digits _ _ W) as D.
  repeat match goal with
         | F : Forall _ (_ :: _) |- _ =>
             let Q := fresh "Q" in
             apply Forall_cons_iff in F; destruct F as [Q F]
         end.
  assert (Hd : dawn (fst (decode buf))
               = 100 * (ch buf 13 - 48) + 10 * (ch buf 14 - 48) + (ch buf 15 - 48)).
  { change (dawn (fst (decode buf)))
      with (atoi (skipn 13 (upd 16 0 (upd 20 0 buf)))).
    rewrite atoi_three_digits; rewrite !ch_upd_nul; cbn [Nat.eqb];
      assumption || reflexivity. }
  assert (He : sunE (fst (decode buf)) = 10 * (ch buf 10 - 48) + (ch buf 11 - 48)).
  { change (sunE (fst (decode buf)))
      with (atoi (skipn 10 (upd 12 0 (upd 16 0 (upd 20 0 buf))))).
    rewrite atoi_two_digits; rewrite !ch_upd_nul; cbn [Nat.eqb];
      assumption || reflexivity. }
  assert (Hsw : sunW (fst (decode buf)) = 10 * (ch buf 8 - 48) + (ch buf 9 - 48)).
  { change (sunW (fst (decode buf)))
      with (atoi (skipn 8 (upd 10 0 (upd 12 0 (upd 16 0 (upd 20 0 buf)))))).
    rewrite atoi_two_digits; rewrite !ch_upd_nul; cbn [Nat.eqb];
      assumption || reflexivity. }
  assert (Hss : sunS (fst (decode buf)) = 10 * (ch buf 6 - 48) + (ch buf 7 - 48)).
  { change (sunS (fst (decode buf)))
      with (atoi (skipn 6 (upd 8 0 (upd 10 0 (upd 12 0 (upd 16 0 (upd 20 0 buf))))))).
    rewrite atoi_two_digits; rewrite !ch_upd_nul; cbn [Nat.eqb];
      assumption || reflexivity. }
  split; [exact Hd|]. split; [exact He|]. split; [exact Hsw|]. split; [exact Hss|].
  split; [reflexivity|].
  split; [change (obsc (fst (decode buf)))
            with (if ch (upd 16 0 (upd 20 0 buf)) 12 =? 74 then 79 else 111);
          rewrite !ch_upd_nul; reflexivity|].
  split; [reflexivity|].
  unfold in_range. rewrite Hw, Ht, Hd, He, Hsw, Hss.
  repeat match goal with
         | Q : isdigit _ = true |- _ => apply digit_value_range in Q
         end.
  destruct (ch buf 1 =? 45); lia.
Qed.

Lemma accumulate_bounds : forall a k m,
  within a k -> in_range m -> within (accumulate a m) (k + 1).
Proof.
  intros a k m (C & T & D & S & W & E & V) (Rt & Rs & Rw & Re & Rd & Rv).
  unfold within. cbn [accumulate count accTemp accDawn accSunS accSunW accSunE maxWind].
  repeat split; try lia;
    destruct (Z.gtb_spec (wind m) (maxWind a)); lia.
Qed.

(** A window of [k] decoded samples: the count is [k] and every sum is at
    most [k] times the largest value of its field, far from the limits of
    [int] and [long] for any window a clock of seconds can hold. *)
Lemma window_bounds : forall e ms,
  Forall in_range ms -> within (window e ms) (Z.of_nat (List.length ms)).
Proof.
  intros e ms H. unfold window.
  assert (G : forall l a k, Forall in_range l -> within a k ->
                within (fold_left accumulate l a) (k + Z.of_nat (List.length l))).
  { induction l as [|m l IH]; intros a k F Wa.
    - simpl. now rewrite Z.add_0_r.
    - apply Forall_cons_iff in F. destruct F as [Fm Fl].
      cbn [fold_left List.length].
      replace (k + Z.of_nat (S (List.length l)))
        with ((k + 1) + Z.of_nat (List.length l)) by lia.
      apply IH; [assumption|]. now apply accumulate_bounds. }
  apply (G ms (cleared e) 0 H).
  unfold within. simpl. lia.
Qed.

(** The datagram of the header comment, end to end. *)
Lemma example_decoded :
  validate (datagram example_text ++ [0]) 40 = 0 /\
  fst (decode (datagram example_text ++ [0])) = example_sample.
Proof. split; vm_compute; reflexivity. Qed.

(** ** The sanity checks as a whole *)

Lemma checks_all_false : forall cs e,
  Forall (fun c => fst c = false) cs -> fold_left apply_check cs e = e.
Proof.
  induction cs as [|[c b] cs IH]; intros e F; [reflexivity|].
  apply Forall_cons_iff in F. destruct F as [Fc Fs]. simpl in Fc. subst c.
  cbn [fold_left]. unfold apply_check at 2. cbn [fst]. now apply IH.
Qed.

Lemma well_formed_checks : forall buf n,
  well_formed buf n -> Forall (fun c => fst c = false) (sanity_checks buf n).
Proof.
  intros buf n [L M G D [P4 P18] O R Pad S].
  repeat match goal with
         | F : Forall _ (_ :: _) |- _ =>
             let Q := fresh "Q" in
             apply Forall_cons_iff in F; destruct F as [Q F]
         end.
  cbn [map seq] in Pad.
  change (bytes_of_string "?151515151515?")
    with [63; 49; 53; 49; 53; 49; 53; 49; 53; 49; 53; 49; 53; 63] in Pad.
  injection Pad as Q21 Q22 Q23 Q24 Q25 Q26 Q27 Q28 Q29 Q30 Q31 Q32 Q33 Q34.
  unfold sanity_checks.
  repeat (apply Forall_cons; cbn [fst];
          [ first [ rewrite not_numeric_isdigit; now apply negb_false_iff
                  | match goal with
                    | E : ?x = _ |- negb (?x =? _) = false => rewrite E; reflexivity
                    | E : ?x = _ \/ ?x = _ |- negb (?x =? _) && _ = false =>
                        destruct E as [E|E]; rewrite E; reflexivity
                    end ] | ]).
  constructor.
Qed.

(** X1.  A datagram passes the sanity checks (mask 0) exactly when it has the
    shape [well_formed]: 40 bytes read, the marker, the sign, the digits and
    points of every field, the two flags, the constant padding, and a
    checksum field that parses to the sum of the bytes 0-34. *)
Theorem validate_zero_iff : forall buf n,
  validate buf n = 0 <-> well_formed buf n.
Proof.
  intros buf n. split; [apply validate_well_formed|].
  intros W. unfold validate.
  rewrite checks_all_false by now apply well_formed_checks.
  rewrite (wf_checksum _ _ W), !Z.eqb_refl. reflexivity.
Qed.

Lemma lor_below : forall a b k,
  0 <= k -> 0 <= a < 2 ^ k -> 0 <= b < 2 ^ k -> 0 <= Z.lor a b < 2 ^ k.
Proof.
  intros a b k Hk Ha Hb. split; [apply Z.lor_nonneg; lia|].
  destruct (Z.eq_dec k 0) as [->|K].
  { change (2 ^ 0) with 1 in *. replace a with 0 by lia. replace b with 0 by lia.
    reflexivity. }
  destruct (Z.eq_dec (Z.lor a b) 0) as [E|E].
  - rewrite E. apply Z.pow_pos_nonneg; lia.
  - apply Z.log2_lt_pow2; [assert (0 <= Z.lor a b) by (apply Z.lor_nonneg; lia); lia|].
    rewrite Z.log2_lor by lia.
    apply Z.max_lub_lt.
    + destruct (Z.eq_dec a 0) as [->|]; [simpl; lia|]. apply Z.log2_lt_pow2; lia.
    + destruct (Z.eq_dec b 0) as [->|]; [simpl; lia|]. apply Z.log2_lt_pow2; lia.
Qed.

Lemma checks_below : forall cs e k,
  0 <= k -> 0 <= e < 2 ^ k ->
  Forall (fun c => 0 <= snd c < 2 ^ k) cs ->
  0 <= fold_left apply_check cs e < 2 ^ k.
Proof.
  induction cs as [|[c b] cs IH]; intros e k Hk He F; [exact He|].
  apply Forall_cons_iff in F. destruct F as [Fb Fs]. simpl in Fb.
  cbn [fold_left]. apply IH; [assumption| |assumption].
  unfold apply_check. cbn [fst snd]. destruct c; [now apply lor_below | assumption].
Qed.

(** X2.  Every rule has its own bit and the rules do not interfere: a bit of
    the mask is set exactly when one of the tests of its rule fails, whatever
    the other rules find; the mask uses the bits 0-13 only, so it is printed
    in full by the four hexadecimal digits of the syslog message. *)
Theorem mask_bits : forall buf n,
  Z.testbit (validate buf n) 1 = negb (ch buf 0 =? 87) /\
  Z.testbit (validate buf n) 2 = negb (ch buf 1 =? 43) && negb (ch buf 1 =? 45) /\
  Z.testbit (validate buf n) 3
  = not_numeric buf 2 || not_numeric buf 3 || negb (ch buf 4 =? 46) || not_numeric buf 5 /\
  Z.testbit (validate buf n) 4 = not_numeric buf 6 || not_numeric buf 7 /\
  Z.testbit (validate buf n) 5 = not_numeric buf 8 || not_numeric buf 9 /\
  Z.testbit (validate buf n) 6 = not_numeric buf 10 || not_numeric buf 11 /\
  Z.testbit (validate buf n) 7 = negb (ch buf 12 =? 74) && negb (ch buf 12 =? 78) /\
  Z.testbit (validate buf n) 8
  = not_numeric buf 13 || not_numeric buf 14 || not_numeric buf 15 /\
  Z.testbit (validate buf n) 9
  = not_numeric buf 16 || not_numeric buf 17 || negb (ch buf 18 =? 46) || not_numeric buf 19 /\
  Z.testbit (validate buf n) 10 = negb (ch buf 20 =? 74) && negb (ch buf 20 =? 78) /\
  Z.testbit (validate buf n) 11
  = existsb (fun i => negb (ch buf (21 + i) =? nth i (bytes_of_string "?151515151515?") 0))
      (seq 0 14) /\
  0 <= validate buf n < 0x4000.
Proof.
  intros buf n.
  repeat match goal with
         | |- Z.testbit _ _ = _ /\ _ => split
         end;
    try (rewrite validate_bit by lia; unfold sanity_checks;
         cbn [existsb fst snd seq Nat.add nth]; eval_testbits;
         rewrite ?orb_assoc; reflexivity).
  assert (B : 0 <= fold_left apply_check (sanity_checks buf n) 0 < 2 ^ 14).
  { apply checks_below; [lia | split; [lia | reflexivity] |].
    unfold sanity_checks. repeat (apply Forall_cons; [cbn [snd]; split; [lia | reflexivity]|]).
    constructor. }
  change 0x4000 with (2 ^ 14). unfold validate.
  match goal with |- context [if ?c then _ else _] => destruct c end;
    [|exact B].
  apply lor_below; [lia | exact B | split; [lia | reflexivity]].
Qed.

(** ** Decoding an accepted datagram *)

(** X3.  Decoding a datagram that passed the sanity checks yields, for the
    three sun fields and the dawn field, the numbers their digits name, and
    for the two flags the capital letter exactly when the flag byte is J;
    every field lies in the range of its format.  The decoding destroys the
    datagram: the buffer it leaves no longer passes the sanity checks. *)
Theorem valid_decode_fields : forall buf n,
  validate buf n = 0 ->
  dawn (fst (decode buf))
  = 100 * (ch buf 13 - 48) + 10 * (ch buf 14 - 48) + (ch buf 15 - 48) /\
  sunE (fst (decode buf)) = 10 * (ch buf 10 - 48) + (ch buf 11 - 48) /\
  sunW (fst (decode buf)) = 10 * (ch buf 8 - 48) + (ch buf 9 - 48) /\
  sunS (fst (decode buf)) = 10 * (ch buf 6 - 48) + (ch buf 7 - 48) /\
  (rain (fst (decode buf)) = 82 /\ ch buf 20 = 74 \/
   rain (fst (decode buf)) = 114 /\ ch buf 20 = 78) /\
  (obsc (fst (decode buf)) = 79 /\ ch buf 12 = 74 \/
   obsc (fst (decode buf)) = 111 /\ ch buf 12 = 78) /\
  in_range (fst (decode buf)) /\
  validate (snd (decode buf)) n <> 0.
Proof.
  intros buf n V. apply validate_well_formed in V.
  destruct (well_formed_decode buf n V) as (Hd & He & Hw & Hs & Hr & Ho & Hc & Hi).
  repeat (split; [assumption|]).
  split; [|split; [|split; [assumption|]]].
  - rewrite Hr. destruct (wf_rain _ _ V) as [E|E]; rewrite E; [left | right]; now split.
  - rewrite Ho. destruct (wf_obsc _ _ V) as [E|E]; rewrite E; [left | right]; now split.
  - rewrite Hc. intro Z.
    assert (B : Z.testbit (validate (carved buf) n) 4 = true).
    { rewrite validate_bit by lia.
      unfold sanity_checks. cbn [existsb fst snd]. eval_testbits.
      unfold not_numeric at 1, carved. rewrite ch_upd_nul. reflexivity. }
    rewrite Z in B. discriminate B.
Qed.

Lemma valid_decode_fields_witness :
  dawn (fst (decode (datagram example_text ++ [0]))) = 999 /\
  sunW (fst (decode (datagram example_text ++ [0]))) = 63 /\
  validate (snd (decode (datagram example_text ++ [0]))) 40 <> 0.
Proof.
  destruct (valid_decode_fields (datagram example_text ++ [0]) 40)
    as (D & _ & W & _ & _ & _ & _ & V).
  - vm_compute. reflexivity.
  - split; [rewrite D; reflexivity|]. split; [rewrite W; reflexivity | exact V].
Defined.

(** ** Framing *)

Lemma ch_upd : forall buf s c j,
  (s < List.length buf)%nat ->
  ch (upd s c buf) j = if Nat.eqb j s then c else ch buf j.
Proof.
  induction buf as [|b buf IH]; intros s c j H; [simpl in H; lia|].
  destruct s as [|s], j as [|j]; try reflexivity.
  change (ch (upd (S s) c (b :: buf)) (S j)) with (ch (upd s c buf) j).
  change (Nat.eqb (S j) (S s)) with (Nat.eqb j s).
  apply IH. simpl in H. lia.
Qed.

Lemma ch_upd_other : forall buf s c j,
  j <> s -> ch (upd s c buf) j = ch buf j.
Proof.
  induction buf as [|b buf IH]; intros s c j H.
  - now replace (upd s c []) with (@nil Z) by now destruct s.
  - destruct s as [|s], j as [|j]; try reflexivity; [congruence|].
    change (ch (upd (S s) c (b :: buf)) (S j)) with (ch (upd s c buf) j).
    apply IH. congruence.
Qed.

Lemma read_loop_framing : forall input buf s buf' s' rest,
  read_loop input buf s = (buf', s', rest, true) ->
  (s < LINELEN)%nat ->
  exists consumed,
    input = consumed ++ rest /\
    s' = (s + List.length consumed)%nat /\
    consumed <> [] /\
    (s' <= LINELEN)%nat /\
    (last consumed 0 = 3 \/ s' = LINELEN) /\
    ~ In 3 (removelast consumed) /\
    List.length buf' = List.length buf /\
    (forall j, (j < s)%nat -> ch buf' j = ch buf j) /\
    (forall i, (i < List.length consumed)%nat ->
               (s + i < List.length buf)%nat ->
               ch buf' (s + i) = nth i consumed 0).
Proof.
  induction input as [|c input IH]; intros buf s buf' s' rest E Hs;
    [discriminate E|].
  cbn [read_loop] in E.
  destruct (negb (c =? 3) && (S s <? LINELEN)%nat) eqn:C.
  - apply andb_true_iff in C. destruct C as [C3 CL].
    apply negb_true_iff, Z.eqb_neq in C3. apply Nat.ltb_lt in CL.
    destruct (IH _ _ _ _ _ E CL)
      as (cs & -> & -> & Hne & Hle & Hlast & Hno & Hlen & Hlow & Hat).
    exists (c :: cs). cbn [List.length app].
    split; [reflexivity|]. split; [lia|]. split; [discriminate|].
    split; [lia|].
    split; [destruct cs; [congruence|]; destruct Hlast; [left | right]; auto; lia|].
    split.
    { destruct cs as [|d cs]; [congruence|].
      change (removelast (c :: d :: cs)) with (c :: removelast (d :: cs)).
      intros [F|F]; [congruence | contradiction]. }
    rewrite length_upd in Hlen. split; [exact Hlen|].
    split.
    { intros j Hj. rewrite Hlow by lia. apply ch_upd_other. lia. }
    intros i Hi Hb. destruct i as [|i].
    + rewrite Nat.add_0_r, Hlow by lia. rewrite ch_upd by lia.
      now rewrite Nat.eqb_refl.
    + replace (s + S i)%nat with (S s + i)%nat by lia.
      rewrite Hat; [reflexivity | lia | rewrite length_upd; lia].
  - injection E as <- <- <-.
    exists [c]. cbn [List.length app last removelast].
    split; [reflexivity|]. split; [lia|]. split; [discriminate|].
    split; [lia|].
    split.
    { apply andb_false_iff in C. destruct C as [C|C].
      - left. apply negb_false_iff in C. now apply Z.eqb_eq.
      - right. apply Nat.ltb_ge in C. lia. }
    split; [tauto|]. split; [apply length_upd|].
    split.
    { intros j Hj. apply ch_upd_other. lia. }
    intros i Hi Hb. replace i with O by lia.
    rewrite Nat.add_0_r, ch_upd by lia. now rewrite Nat.eqb_refl.
Qed.

(** X4.  Whatever the serial line delivers, a completed read takes a
    non-empty prefix of the input of at most [LINELEN] bytes that stops at
    the first end mark 0x03 (or at [LINELEN] bytes when none came) and
    leaves the rest of the input for the next read.  When fewer than
    [LINELEN] bytes were read, the prefix stands at the start of the buffer
    with a NUL behind it and the buffer has kept its size.  (After a read of
    [LINELEN] bytes the source stores the NUL behind the buffer; nothing is
    stated about the buffer then.) *)
Theorem read_frame_framing : forall input buf0 buf n rest,
  List.length buf0 = LINELEN ->
  read_frame input buf0 = Some (buf, n, rest) ->
  exists consumed,
    input = consumed ++ rest /\
    n = Z.of_nat (List.length consumed) /\
    1 <= n <= 150 /\
    (last consumed 0 = 3 \/ n = 150) /\
    ~ In 3 (removelast consumed) /\
    (n < 150 ->
     last consumed 0 = 3 /\
     List.length buf = LINELEN /\
     (forall i, (i < List.length consumed)%nat -> ch buf i = nth i consumed 0) /\
     ch buf (List.length consumed) = 0).
Proof.
  intros input buf0 buf n rest Hb E. unfold read_frame in E.
  destruct (read_loop input buf0 0) as [[[buf' s'] rest'] [|]] eqn:R;
    [|discriminate E].
  injection E as <- <- <-.
  destruct (read_loop_framing _ _ _ _ _ _ R)
    as (cs & Hin & Hs & Hne & Hle & Hlast & Hno & Hlen & _ & Hat);
    [unfold LINELEN; lia|].
  cbn [Nat.add] in Hs. subst s'.
  exists cs. split; [exact Hin|]. split; [reflexivity|].
  assert (L : (0 < List.length cs)%nat) by (destruct cs; [congruence | simpl; lia]).
  unfold LINELEN in *.
  split; [lia|]. split; [destruct Hlast; [left | right]; auto; lia|].
  split; [exact Hno|].
  intros Hn.
  split; [destruct Hlast; [assumption | lia]|].
  split; [rewrite length_upd; lia|].
  split.
  - intros i Hi. rewrite ch_upd_nul.
    replace (Nat.eqb i (List.length cs)) with false
      by (symmetry; apply Nat.eqb_neq; lia).
    apply (Hat i Hi). cbn [Nat.add]. lia.
  - rewrite ch_upd by (rewrite Hlen; lia). now rewrite Nat.eqb_refl.
Qed.

Lemma read_frame_framing_witness :
  exists consumed,
    datagram example_text ++ datagram marker_text
    = consumed ++ datagram marker_text /\
    40 = Z.of_nat (List.length consumed) /\
    1 <= 40 <= 150 /\
    (last consumed 0 = 3 \/ 40 = 150) /\
    ~ In 3 (removelast consumed) /\
    (40 < 150 ->
     last consumed 0 = 3 /\
     List.length (datagram example_text ++ 0 :: skipn 41 blank) = LINELEN /\
     (forall i, (i < List.length consumed)%nat ->
                ch (datagram example_text ++ 0 :: skipn 41 blank) i
                = nth i consumed 0) /\
     ch (datagram example_text ++ 0 :: skipn 41 blank) (List.length consumed) = 0).
Proof.
  apply (read_frame_framing (datagram example_text ++ datagram marker_text) blank).
  - reflexivity.
  - vm_compute. reflexivity.
Defined.

(** ** What an earlier datagram leaves in the buffer *)

Lemma sanity_checks_ext : forall b1 b2 n,
  (forall i, (i < 39)%nat -> ch b1 i = ch b2 i) ->
  sanity_checks b1 n = sanity_checks b2 n.
Proof.
  intros b1 b2 n H. unfold sanity_checks, not_numeric.
  rewrite !H by lia. reflexivity.
Qed.

Lemma checksum_ext : forall b1 b2,
  (forall i, (i < 39)%nat -> ch b1 i = ch b2 i) -> checksum b1 = checksum b2.
Proof.
  intros b1 b2 H. unfold checksum. cbn [seq fold_left].
  rewrite !H by lia. reflexivity.
Qed.

Lemma digits_value_end : forall q tl accu,
  digits_value (q ++ 3 :: tl) accu = digits_value q accu.
Proof.
  induction q as [|c q IH]; intros tl accu; [reflexivity|].
  cbn [app digits_value]. destruct (isdigit c); [apply IH | reflexivity].
Qed.

Lemma skip_space_end : forall q tl,
  skip_space (q ++ 3 :: tl) = skip_space q ++ 3 :: tl.
Proof.
  induction q as [|c q IH]; intros tl; [reflexivity|].
  cbn [app skip_space]. destruct (isspace c); [apply IH | reflexivity].
Qed.

Lemma atoi_signs : forall s,
  atoi s = match skip_space s with
           | [] => 0
           | c :: r => if c =? 43 then to_int (Z.min (digits_value r 0) LONG_MAX)
                       else if c =? 45 then to_int (Z.max (- digits_value r 0) LONG_MIN)
                       else to_int (Z.min (digits_value (c :: r) 0) LONG_MAX)
           end.
Proof.
  intros s. unfold atoi, strtol. destruct (skip_space s) as [|c r]; [reflexivity|].
  destruct c as [|p|p]; try reflexivity.
  repeat match goal with
         | p : positive |- _ => destruct p; try reflexivity
         end.
Qed.

(** The number parsed before an end mark does not depend on what follows
    the end mark. *)
Lemma atoi_end : forall q tl, atoi (q ++ 3 :: tl) = atoi (q ++ [3]).
Proof.
  intros q tl. rewrite !atoi_signs, !skip_space_end.
  destruct (skip_space q) as [|c r]; [reflexivity|].
  cbn [app]. rewrite !digits_value_end.
  change (c :: r ++ 3 :: tl) with ((c :: r) ++ 3 :: tl).
  change (c :: r ++ [3]) with ((c :: r) ++ [3]).
  now rewrite !digits_value_end.
Qed.

Lemma strncpy_end : forall p k t1 t2,
  strncpy k (p ++ 0 :: t1) = strncpy k (p ++ 0 :: t2).
Proof.
  induction p as [|c p IH]; intros k t1 t2.
  - destruct k; reflexivity.
  - destruct k as [|k]; [reflexivity|]. cbn [app strncpy].
    destruct (c =? 0); [reflexivity|]. f_equal. apply IH.
Qed.

Lemma ch_prefix : forall p tl i,
  (i < List.length p)%nat -> ch (p ++ tl) i = nth i p 0.
Proof. intros. unfold ch. now apply app_nth1. Qed.

Lemma validate_end : forall payload t1 t2 n,
  List.length payload = 39%nat ->
  validate (payload ++ 3 :: t1) n = validate (payload ++ 3 :: t2) n.
Proof.
  intros payload t1 t2 n L.
  assert (H : forall i, (i < 39)%nat ->
                        ch (payload ++ 3 :: t1) i = ch (payload ++ 3 :: t2) i)
    by (intros i Hi; rewrite !ch_prefix by lia; reflexivity).
  unfold validate.
  rewrite (sanity_checks_ext _ _ n H), (checksum_ext _ _ H).
  rewrite !skipn_app, L. cbn [Nat.sub skipn].
  now rewrite (atoi_end _ t1), (atoi_end _ t2).
Qed.

Lemma decode_ext : forall b1 b2 n,
  well_formed b1 n -> well_formed b2 n ->
  (forall i, (i < 39)%nat -> ch b1 i = ch b2 i) ->
  fst (decode b1) = fst (decode b2).
Proof.
  intros b1 b2 n W1 W2 H.
  pose proof (well_formed_wind _ _ W1) as Hw1.
  pose proof (well_formed_wind _ _ W2) as Hw2.
  pose proof (well_formed_temp _ _ W1) as Ht1.
  pose proof (well_formed_temp _ _ W2) as Ht2.
  destruct (well_formed_decode _ _ W1) as (Hd1 & He1 & Hsw1 & Hss1 & Hr1 & Ho1 & _).
  destruct (well_formed_decode _ _ W2) as (Hd2 & He2 & Hsw2 & Hss2 & Hr2 & Ho2 & _).
  rewrite !H in * by lia.
  destruct (fst (decode b1)) as [t1 s1 w1 e1 o1 d1 v1 r1].
  destruct (fst (decode b2)) as [t2 s2 w2 e2 o2 d2 v2 r2].
  cbn [temp sunS sunW sunE obsc dawn wind rain] in *.
  subst. reflexivity.
Qed.

(** X5.  For a datagram of the accepted length (39 bytes and the end mark)
    the iteration does not depend on what earlier datagrams left in the
    buffer: the mask, the new accumulator and everything written (snapshot,
    record, or the syslog message with its copy of the bytes) are the same
    for any two earlier contents. *)
Theorem accepted_length_ignores_stale_buffer :
  forall interval use_syslog a ltime payload rest b1 b2,
    ~ In 3 payload -> List.length payload = 39%nat ->
    List.length b1 = LINELEN -> List.length b2 = LINELEN ->
    exists buf1 buf2,
      read_frame (payload ++ 3 :: rest) b1 = Some (buf1, 40, rest) /\
      read_frame (payload ++ 3 :: rest) b2 = Some (buf2, 40, rest) /\
      validate buf1 40 = validate buf2 40 /\
      option_map (fun r => (fst (fst r), snd r))
        (process interval use_syslog a buf1 40 ltime)
      = option_map (fun r => (fst (fst r), snd r))
          (process interval use_syslog a buf2 40 ltime).
Proof.
  intros interval use_syslog a ltime payload rest b1 b2 Hin L L1 L2.
  rewrite !read_datagram by (assumption || (rewrite L; vm_compute; lia)).
  rewrite L. cbn [Nat.add Z.of_nat Pos.of_succ_nat Pos.succ Z.add Pos.add].
  do 2 eexists. split; [reflexivity|]. split; [reflexivity|].
  set (t1 := skipn 41 b1). set (t2 := skipn 41 b2).
  pose proof (validate_end payload (0 :: t1) (0 :: t2) 40 L) as V.
  split; [exact V|].
  unfold process. rewrite <- V.
  destruct (Z.eqb_spec (validate (payload ++ 3 :: 0 :: t1) 40) 0) as [Z|Z].
  - assert (W1 : well_formed (payload ++ 3 :: 0 :: t1) 40)
      by now apply validate_well_formed.
    assert (W2 : well_formed (payload ++ 3 :: 0 :: t2) 40)
      by (apply validate_well_formed; now rewrite <- V).
    assert (D : fst (decode (payload ++ 3 :: 0 :: t1))
                = fst (decode (payload ++ 3 :: 0 :: t2))).
    { apply (decode_ext _ _ 40 W1 W2).
      intros i Hi. rewrite !ch_prefix by lia. reflexivity. }
    destruct (decode (payload ++ 3 :: 0 :: t1)) as [m1 c1].
    destruct (decode (payload ++ 3 :: 0 :: t2)) as [m2 c2].
    cbn [fst] in D. subst m2.
    destruct (accept interval a m1 ltime) as [[a' r]|]; reflexivity.
  - cbn [option_map fst snd].
    change (payload ++ 3 :: 0 :: t1) with (payload ++ [3] ++ 0 :: t1).
    change (payload ++ 3 :: 0 :: t2) with (payload ++ [3] ++ 0 :: t2).
    rewrite !app_assoc.
    now rewrite (strncpy_end (payload ++ [3]) (LINELEN - 1) t1 t2).
Qed.

Lemma accepted_length_ignores_stale_buffer_witness :
  exists buf1 buf2,
    read_frame (bytes_of_string example_text ++ 3 :: []) blank = Some (buf1, 40, []) /\
    read_frame (bytes_of_string example_text ++ 3 :: []) (repeat 55 LINELEN)
    = Some (buf2, 40, []) /\
    validate buf1 40 = validate buf2 40 /\
    option_map (fun r => (fst (fst r), snd r)) (process 60 false initial buf1 40 59)
    = option_map (fun r => (fst (fst r), snd r)) (process 60 false initial buf2 40 59).
Proof.
  apply (accepted_length_ignores_stale_buffer 60 false initial 59
           (bytes_of_string example_text) [] blank (repeat 55 LINELEN)).
  - vm_compute. intuition discriminate.
  - reflexivity.
  - reflexivity.
  - reflexivity.
Defined.

(** ** The phase test and the window boundaries *)

Lemma phase_wraps_iff : forall interval t1 t2,
  0 < interval -> 0 <= t1 <= t2 -> t2 - t1 < interval ->
  (Z.rem t2 interval < Z.rem t1 interval <-> Z.quot t1 interval < Z.quot t2 interval).
Proof.
  intros interval t1 t2 Hi Ht Hd.
  rewrite !Z.rem_mod_nonneg, !Z.quot_div_nonneg by lia.
  pose proof (Z.div_mod t1 interval ltac:(lia)) as E1.
  pose proof (Z.div_mod t2 interval ltac:(lia)) as E2.
  pose proof (Z.mod_pos_bound t1 interval Hi) as B1.
  pose proof (Z.mod_pos_bound t2 interval Hi) as B2.
  split; intro H; nia.
Qed.

(** X6.  When two accepted samples follow each other within less than one
    interval, the second closes the window exactly when a multiple of the
    interval lies between them (after the first, up to the second). *)
Theorem close_iff_boundary_crossed :
  forall interval a m t1 t2,
    reachable interval a ->
    oldEpoch a = Z.rem t1 interval ->
    0 < interval -> 0 <= t1 <= t2 -> t2 - t1 < interval ->
    ((exists a' r, accept interval a m t2 = Some (a', Some r))
     <-> Z.quot t1 interval < Z.quot t2 interval).
Proof.
  intros interval a m t1 t2 R O Hi Ht Hd.
  rewrite <- phase_wraps_iff by assumption. rewrite <- O.
  split.
  - intros (a' & r & E). apply accept_inv in E.
    destruct E as [(L & _) | (_ & E & _)]; [exact L | discriminate E].
  - intros L. apply Z.ltb_lt in L.
    destruct (accept_close interval a m t2 L) as (r & _ & E);
      [eapply reachable_count; eassumption | eauto].
Qed.

Lemma close_iff_boundary_crossed_witness :
  (exists a' r,
     accept 60 (set_oldEpoch (accumulate initial example_sample) (Z.rem 59 60))
       example_sample 60 = Some (a', Some r))
  <-> Z.quot 59 60 < Z.quot 60 60.
Proof.
  apply (close_iff_boundary_crossed 60 _ example_sample 59 60).
  - apply (reach_accept 60 initial example_sample 59 _ None);
      [apply reach_initial | apply accept_keep; reflexivity].
  - reflexivity.
  - lia.
  - lia.
  - lia.
Defined.

(** X7.  A longer silence can hide boundaries: when the second sample comes
    [k] whole intervals and [d] seconds after the first and the phase of the
    first plus [d] stays below the interval, the [k] boundaries in between
    close no window and the samples before and after them are averaged
    together. *)
Theorem gap_hides_boundary :
  forall interval a m t1 k d,
    oldEpoch a = Z.rem t1 interval ->
    0 < interval -> 0 <= t1 -> 0 <= k -> 0 <= d ->
    Z.rem t1 interval + d < interval ->
    Z.quot (t1 + k * interval + d) interval = Z.quot t1 interval + k /\
    accept interval a m (t1 + k * interval + d)
    = Some (set_oldEpoch (accumulate a m) (Z.rem t1 interval + d), None).
Proof.
  intros interval a m t1 k d O Hi Ht Hk Hd Hp.
  rewrite Z.rem_mod_nonneg in * by lia.
  assert (Hn : 0 <= t1 + k * interval + d) by nia.
  pose proof (Z.div_mod t1 interval ltac:(lia)) as E1.
  pose proof (Z.mod_pos_bound t1 interval Hi) as B1.
  assert (Q : (t1 + k * interval + d) / interval = t1 / interval + k).
  { symmetry. apply (Z.div_unique _ _ _ (t1 mod interval + d)); [lia|nia]. }
  assert (M : (t1 + k * interval + d) mod interval = t1 mod interval + d).
  { symmetry. apply (Z.mod_unique _ _ (t1 / interval + k)); [lia|nia]. }
  rewrite Z.quot_div_nonneg by lia.
  rewrite Z.quot_div_nonneg by lia.
  split; [exact Q|].
  rewrite accept_keep.
  - rewrite Z.rem_mod_nonneg by lia. now rewrite M.
  - rewrite Z.rem_mod_nonneg by lia. rewrite M, O. apply Z.ltb_ge. lia.
Qed.

Lemma gap_hides_boundary_witness :
  Z.quot (5 + 2 * 60 + 10) 60 = Z.quot 5 60 + 2 /\
  accept 60 (set_oldEpoch (accumulate initial example_sample) (Z.rem 5 60))
    example_sample (5 + 2 * 60 + 10)
  = Some (set_oldEpoch
            (accumulate (set_oldEpoch (accumulate initial example_sample) (Z.rem 5 60))
               example_sample)
            (Z.rem 5 60 + 10), None).
Proof.
  apply (gap_hides_boundary 60 _ example_sample 5 2 10); try lia.
  - reflexivity.
  - vm_compute. reflexivity.
Defined.

(** ** The record of a window *)

Lemma average_value : forall acc cnt,
  0 < cnt -> - (999 * cnt) <= acc <= 999 * cnt ->
  average acc cnt
  = Some (if Z.quot acc cnt <? 0 then Z.quot acc cnt + 1 else Z.quot acc cnt).
Proof.
  intros acc cnt Hc Ha. unfold average.
  replace (cnt =? 0) with false by (symmetry; apply Z.eqb_neq; lia).
  f_equal.
  assert (B : -999 <= Z.quot acc cnt <= 999).
  { destruct (Z.le_gt_cases 0 acc).
    - rewrite Z.quot_div_nonneg by lia. split.
      + assert (0 <= acc / cnt) by (apply Z.div_pos; lia). lia.
      + apply Z.div_le_upper_bound; lia.
    - replace acc with (- (- acc)) by lia. rewrite Z.quot_opp_l by lia.
      rewrite Z.quot_div_nonneg by lia.
      assert (0 <= - acc / cnt) by (apply Z.div_pos; lia).
      assert (- acc / cnt <= 999) by (apply Z.div_le_upper_bound; lia).
      lia. }
  destruct (Z.ltb_spec (Z.quot acc cnt) 0) as [N|N].
  - replace (Z.quot acc cnt) with (- (- Z.quot acc cnt - 1) - 1) at 1 by lia.
    rewrite (proj2 (half_added (- Z.quot acc cnt - 1) ltac:(lia))). lia.
  - apply half_added. lia.
Qed.

Lemma window_sums : forall ms a,
  count (fold_left accumulate ms a) = count a + Z.of_nat (List.length ms) /\
  accDawn (fold_left accumulate ms a) = accDawn a + fold_right Z.add 0 (map dawn ms) /\
  accSunS (fold_left accumulate ms a) = accSunS a + fold_right Z.add 0 (map sunS ms) /\
  accSunW (fold_left accumulate ms a) = accSunW a + fold_right Z.add 0 (map sunW ms) /\
  accSunE (fold_left accumulate ms a) = accSunE a + fold_right Z.add 0 (map sunE ms) /\
  accTemp (fold_left accumulate ms a) = accTemp a + fold_right Z.add 0 (map temp ms) /\
  maxWind (fold_left accumulate ms a) = fold_left Z.max (map wind ms) (maxWind a).
Proof.
  induction ms as [|m ms IH]; intros a.
  - cbn [fold_left map fold_right List.length Z.of_nat]. repeat split; lia.
  - cbn [fold_left map fold_right List.length].
    destruct (IH (accumulate a m)) as (-> & -> & -> & -> & -> & -> & ->).
    cbn [accumulate count accDawn accSunS accSunW accSunE accTemp maxWind].
    repeat split; try lia.
    f_equal. destruct (Z.gtb_spec (wind m) (maxWind a)); lia.
Qed.

(** X8.  The record of a window of [k >= 1] decoded samples: every average
    of a sun or dawn field is the mean of the samples rounded down, the
    average temperature is the quotient of sum and count truncated toward
    zero and, when that is negative, moved up by one tenth; all of them stay
    within the range of their field. *)
Theorem window_averages : forall e ms,
  ms <> [] -> Forall in_range ms ->
  exists r,
    close_window (window e ms) = Some r /\
    avgDawn r = fold_right Z.add 0 (map dawn ms) / Z.of_nat (List.length ms) /\
    avgSunS r = fold_right Z.add 0 (map sunS ms) / Z.of_nat (List.length ms) /\
    avgSunW r = fold_right Z.add 0 (map sunW ms) / Z.of_nat (List.length ms) /\
    avgSunE r = fold_right Z.add 0 (map sunE ms) / Z.of_nat (List.length ms) /\
    avgTemp r
    = (let q := Z.quot (fold_right Z.add 0 (map temp ms)) (Z.of_nat (List.length ms)) in
       if q <? 0 then q + 1 else q) /\
    (0 <= avgDawn r <= 999 /\ 0 <= avgSunS r <= 99 /\ 0 <= avgSunW r <= 99 /\
     0 <= avgSunE r <= 99 /\ -999 <= avgTemp r <= 999).
Proof.
  intros e ms Hne F.
  pose proof (window_bounds e ms F) as (C & T & D & S & W & E & _).
  destruct (window_sums ms (cleared e)) as (_ & Sd & Ss & Sw & Se & St & _).
  fold (window e ms) in Sd, Ss, Sw, Se, St.
  cbn [cleared accDawn accSunS accSunW accSunE accTemp] in Sd, Ss, Sw, Se, St.
  rewrite Z.add_0_l in Sd, Ss, Sw, Se, St.
  set (k := Z.of_nat (List.length ms)) in *.
  assert (K : 0 < k) by (destruct ms; [congruence | subst k; simpl; lia]).
  unfold close_window. rewrite C.
  rewrite (average_floor (accDawn (window e ms)) k) by lia.
  rewrite (average_floor (accSunE (window e ms)) k) by lia.
  rewrite (average_floor (accSunW (window e ms)) k) by lia.
  rewrite (average_floor (accSunS (window e ms)) k) by lia.
  rewrite (average_value (accTemp (window e ms)) k) by lia.
  eexists. split; [reflexivity|].
  cbn [avgDawn avgSunS avgSunW avgSunE avgTemp].
  rewrite Sd, Ss, Sw, Se, St in *.
  repeat (split; [reflexivity|]).
  assert (Bq : forall x hi, 0 <= x <= hi * k -> 0 <= x / k <= hi).
  { intros x hi Hx. split; [apply Z.div_pos; lia | apply Z.div_le_upper_bound; lia]. }
  split; [apply Bq; lia|]. split; [apply Bq; lia|].
  split; [apply Bq; lia|]. split; [apply Bq; lia|].
  set (s := fold_right Z.add 0 (map temp ms)) in *.
  assert (Q : -999 <= Z.quot s k <= 999).
  { destruct (Z.le_gt_cases 0 s).
    - rewrite Z.quot_div_nonneg by lia.
      pose proof (Bq s 999 ltac:(lia)). lia.
    - replace s with (- (- s)) by lia. rewrite Z.quot_opp_l by lia.
      rewrite Z.quot_div_nonneg by lia.
      pose proof (Bq (- s) 999 ltac:(lia)). lia. }
  cbv zeta. destruct (Z.ltb_spec (Z.quot s k) 0); lia.
Qed.

Lemma window_averages_witness :
  exists r,
    close_window (window 0 [dawn2_rain_sample; dawn3_dry_sample]) = Some r /\
    avgDawn r
    = fold_right Z.add 0 (map dawn [dawn2_rain_sample; dawn3_dry_sample])
      / Z.of_nat (List.length [dawn2_rain_sample; dawn3_dry_sample]) /\
    0 <= avgDawn r <= 999.
Proof.
  destruct (window_averages 0 [dawn2_rain_sample; dawn3_dry_sample])
    as (r & E & D & _ & _ & _ & _ & B & _).
  - discriminate.
  - repeat constructor; vm_compute; discriminate.
  - exists r. split; [exact E|]. split; [exact D | exact B].
Defined.

Lemma fold_max_bounds : forall l x,
  x <= fold_left Z.max l x /\
  (forall c, In c l -> c <= fold_left Z.max l x) /\
  (fold_left Z.max l x = x \/ In (fold_left Z.max l x) l).
Proof.
  induction l as [|c l IH]; intros x.
  - cbn [fold_left]. split; [lia|]. split; [intros c []|now left].
  - cbn [fold_left]. destruct (IH (Z.max x c)) as (A & B & C).
    split; [lia|]. split.
    + intros d [<-|D]; [lia | now apply B].
    + destruct C as [C|C]; [|right; now right].
      rewrite C. destruct (Z.max_spec x c) as [[_ ->]|[_ ->]]; [right; now left | now left].
Qed.

(** X9.  The wind in the record is the maximum of the window: no sample of
    the window had more wind, and (winds being non-negative) when the window
    is not empty one of its samples had exactly that wind. *)
Theorem window_wind_maximum : forall e ms,
  (forall m, In m ms -> wind m <= maxWind (window e ms)) /\
  (ms <> [] -> (forall m, In m ms -> 0 <= wind m) ->
   exists m, In m ms /\ wind m = maxWind (window e ms)).
Proof.
  intros e ms. unfold window.
  destruct (window_sums ms (cleared e)) as (_ & _ & _ & _ & _ & _ & ->).
  cbn [cleared maxWind].
  destruct (fold_max_bounds (map wind ms) 0) as (A & B & C).
  split.
  - intros m M. apply B. now apply in_map.
  - intros Hne Hpos. destruct C as [C|C].
    + destruct ms as [|m ms]; [congruence|]. exists m. split; [now left|].
      assert (M : In m (m :: ms)) by now left.
      pose proof (B (wind m) (in_map wind _ _ M)).
      pose proof (Hpos m M). lia.
    + apply in_map_iff in C. destruct C as (m & E & M). eauto.
Qed.

Lemma window_wind_maximum_witness :
  exists m, In m [dawn2_rain_sample; dawn3_dry_sample] /\
            wind m = maxWind (window 0 [dawn2_rain_sample; dawn3_dry_sample]).
Proof.
  apply (proj2 (window_wind_maximum 0 [dawn2_rain_sample; dawn3_dry_sample])).
  - discriminate.
  - intros m [<-|[<-|[]]]; vm_compute; discriminate.
Defined.

(** ** The time stamp of a record *)

Lemma snap_table : forallb snap_agree (map Z.of_nat (seq 10 591)) = true.
Proof. vm_compute. reflexivity. Qed.

(** X10.  The time stamp of a record is the time of the closing sample or
    the window boundary just before it, never later than the sample and less
    than one interval before it.  For every interval from 10 to 600 seconds
    the boundary is taken exactly when the phase is at most a twentieth of
    the interval (for the default of 60 seconds: up to 3 seconds late). *)
Theorem stamp_snaps_to_boundary :
  (forall interval ltime,
     0 < interval -> 0 <= ltime ->
     (stamp interval ltime = ltime \/
      stamp interval ltime = ltime - ltime mod interval) /\
     ltime - interval < stamp interval ltime <= ltime) /\
  (forall interval ltime,
     10 <= interval <= 600 -> 0 <= ltime ->
     stamp interval ltime
     = if 20 * (ltime mod interval) <=? interval
       then ltime - ltime mod interval else ltime).
Proof.
  assert (Q : forall interval ltime, 0 < interval -> 0 <= ltime ->
                Z.quot ltime interval * interval = ltime - ltime mod interval).
  { intros interval ltime Hi Ht. rewrite Z.quot_div_nonneg by lia.
    pose proof (Z.div_mod ltime interval ltac:(lia)). lia. }
  split.
  - intros interval ltime Hi Ht. unfold stamp.
    pose proof (Z.mod_pos_bound ltime interval Hi).
    destruct (Dleb _ _); rewrite ?Q by lia; split; auto; lia.
  - intros interval ltime Hi Ht. unfold stamp.
    rewrite Q, Z.rem_mod_nonneg by lia.
    pose proof (Z.mod_pos_bound ltime interval ltac:(lia)) as B.
    pose proof snap_table as T. rewrite forallb_forall in T.
    assert (I : In interval (map Z.of_nat (seq 10 591))).
    { replace interval with (Z.of_nat (Z.to_nat interval)) by lia.
      apply in_map, in_seq. lia. }
    specialize (T interval I). unfold snap_agree in T. cbv zeta in T.
    rewrite forallb_forall in T.
    assert (P : In (ltime mod interval) (map Z.of_nat (seq 0 (Z.to_nat interval)))).
    { replace (ltime mod interval) with (Z.of_nat (Z.to_nat (ltime mod interval))) by lia.
      apply in_map, in_seq. lia. }
    specialize (T _ P). apply eqb_prop in T. now rewrite T.
Qed.

Lemma stamp_snaps_to_boundary_witness :
  stamp 60 1207235043
  = (if 20 * (1207235043 mod 60) <=? 60
     then 1207235043 - 1207235043 mod 60 else 1207235043) /\
  1207235043 - 60 < stamp 60 1207235043 <= 1207235043.
Proof.
  split.
  - apply (proj2 stamp_snaps_to_boundary 60 1207235043); lia.
  - apply (proj1 stamp_snaps_to_boundary 60 1207235043); lia.
Defined.

(** ** What is reported about a dropped datagram *)

(** X11.  A datagram with an end mark and at most 147 bytes before it, but
    not 39, is always dropped with the length bit in its mask, and the
    syslog message shows its bytes up to the first NUL byte: all of them,
    the end mark included, when the datagram holds no NUL, and only the part
    before the NUL otherwise. *)
Theorem wrong_length_report :
  forall interval use_syslog a ltime payload rest buf0,
    ~ In 3 payload ->
    (List.length payload + 3 <= LINELEN)%nat ->
    List.length payload <> 39%nat ->
    List.length buf0 = LINELEN ->
    exists buf err,
      read_frame (payload ++ 3 :: rest) buf0
      = Some (buf, Z.of_nat (List.length payload) + 1, rest) /\
      Z.testbit err 0 = true /\
      (~ In 0 payload ->
       process interval use_syslog a buf (Z.of_nat (List.length payload) + 1) ltime
       = Some (a, buf, [SyslogError err (payload ++ [3])])) /\
      (forall p1 p2, payload = p1 ++ 0 :: p2 -> ~ In 0 p1 ->
       process interval use_syslog a buf (Z.of_nat (List.length payload) + 1) ltime
       = Some (a, buf, [SyslogError err p1])).
Proof.
  intros interval use_syslog a ltime payload rest buf0 H3 Hlen H39 Hbuf.
  rewrite read_datagram by (assumption || lia).
  set (n := Z.of_nat (List.length payload) + 1).
  set (buf := payload ++ 3 :: 0 :: skipn (List.length payload + 2) buf0).
  exists buf, (validate buf n). split; [reflexivity|].
  assert (B : Z.testbit (validate buf n) 0 = true).
  { rewrite length_bit. apply negb_true_iff, Z.eqb_neq. subst n. lia. }
  split; [exact B|].
  assert (V : validate buf n <> 0).
  { intro Z. rewrite Z in B. discriminate B. }
  pose proof (process_invalid interval use_syslog a buf n ltime V) as P.
  split.
  - intros H0. rewrite P. repeat f_equal. subst buf.
    change (payload ++ 3 :: 0 :: skipn (List.length payload + 2) buf0)
      with (payload ++ [3] ++ 0 :: skipn (List.length payload + 2) buf0).
    rewrite app_assoc. apply strncpy_nul.
    + intro F. apply in_app_or in F. destruct F as [F|[F|[]]]; [auto | discriminate F].
    + rewrite length_app. unfold LINELEN in *. simpl. lia.
  - intros p1 p2 E H0. rewrite P. repeat f_equal. subst buf. rewrite E.
    rewrite <- app_assoc. cbn [app]. apply strncpy_nul; [exact H0|].
    rewrite E, length_app in Hlen. unfold LINELEN in *. simpl in *. lia.
Qed.

Lemma wrong_length_report_witness :
  exists buf err,
    read_frame (bytes_of_string long_text ++ 3 :: []) blank
    = Some (buf, Z.of_nat (List.length (bytes_of_string long_text)) + 1, []) /\
    Z.testbit err 0 = true /\
    (~ In 0 (bytes_of_string long_text) ->
     process 60 false initial buf
       (Z.of_nat (List.length (bytes_of_string long_text)) + 1) 59
     = Some (initial, buf, [SyslogError err (bytes_of_string long_text ++ [3])])) /\
    (forall p1 p2, bytes_of_string long_text = p1 ++ 0 :: p2 -> ~ In 0 p1 ->
     process 60 false initial buf
       (Z.of_nat (List.length (bytes_of_string long_text)) + 1) 59
     = Some (initial, buf, [SyslogError err p1])).
Proof.
  apply (wrong_length_report 60 false initial 59 (bytes_of_string long_text) [] blank).
  - vm_compute. intuition discriminate.
  - vm_compute. lia.
  - vm_compute. discriminate.
  - reflexivity.
Defined.

(** ** The output of the loop *)

Lemma process_output : forall interval use_syslog a buf n ltime a' buf' out,
  process interval use_syslog a buf n ltime = Some (a', buf', out) ->
  (exists err cpy, out = [SyslogError err cpy]) \/
  (exists m, out = [Snapshot m]) \/
  (exists m e r, out = [Snapshot m; if use_syslog then SyslogRecord r else LogLine e r]).
Proof.
  intros interval use_syslog a buf n ltime a' buf' out E. unfold process in E.
  destruct (validate buf n =? 0).
  - destruct (decode buf) as [m b].
    destruct (accept interval a m ltime) as [[a1 [[e r]|]]|]; [| |discriminate E];
      injection E as <- <- <-; right; [right | left]; eauto.
  - injection E as <- <- <-. left. eauto.
Qed.

Lemma shaped_weaken : forall out, shaped false out = true -> shaped true out = true.
Proof.
  intros [|[m|e r|r|err cpy] out] H; cbn [shaped] in *; try assumption; discriminate H.
Qed.

(** X12.  In everything the loop writes, a periodic record only ever stands
    right after a snapshot, the one of the sample that closed the window;
    and the records go to one sink only: with [-s] no line is written to
    the log file, without it no record goes to syslog. *)
Theorem loop_output_shape :
  forall interval use_syslog clock input buf a a' buf' out,
    main_loop interval use_syslog clock input buf a = Some (a', buf', out) ->
    shaped false out = true /\ forallb (sink_ok use_syslog) out = true.
Proof.
  intros interval use_syslog clock.
  induction clock as [|ltime clock IH]; intros input buf a a' buf' out E;
    cbn [main_loop] in E.
  - injection E as <- <- <-. split; reflexivity.
  - destruct (read_frame input buf) as [[[buf1 n] rest]|];
      [|injection E as <- <- <-; split; reflexivity].
    destruct (process interval use_syslog a buf1 n ltime) as [[[a1 buf2] o1]|] eqn:P;
      [|discriminate E].
    destruct (main_loop interval use_syslog clock rest buf2 a1) as [[[a2 buf3] o2]|] eqn:M;
      [|discriminate E].
    injection E as <- <- <-.
    destruct (IH _ _ _ _ _ _ M) as [S K].
    apply process_output in P.
    destruct P as [(err & cpy & ->) | [(m & ->) | (m & e & r & ->)]];
      cbn [app shaped forallb sink_ok andb].
    + split; assumption.
    + split; [now apply shaped_weaken | assumption].
    + split; [destruct use_syslog; exact S|].
      destruct use_syslog; cbn [sink_ok negb andb]; exact K.
Qed.

Lemma loop_output_shape_witness :
  shaped false
    [Snapshot dawn2_rain_sample; Snapshot dawn3_dry_sample;
     LogLine 60
       {| avgTemp := 76; avgSunS := 1; avgSunW := 63; avgSunE := 0;
          outObsc := 111; avgDawn := 2; outWind := 12; outRain := 114 |}] = true /\
  forallb (sink_ok false)
    [Snapshot dawn2_rain_sample; Snapshot dawn3_dry_sample;
     LogLine 60
       {| avgTemp := 76; avgSunS := 1; avgSunW := 63; avgSunE := 0;
          outObsc := 111; avgDawn := 2; outWind := 12; outRain := 114 |}] = true.
Proof.
  apply (loop_output_shape 60 false [59; 60]
           (datagram dawn2_rain_text ++ datagram dawn3_dry_text) blank initial
           (cleared 0)
           (carved (datagram dawn3_dry_text ++ 0 :: skipn 41 blank))).
  vm_compute. reflexivity.
Defined.

(** ** The flag characters of a window *)

Lemma fold_max_lower : forall lo hi l x,
  lo < hi ->
  (forall c, In c l -> c = lo \/ c = hi) ->
  (fold_left Z.max l x = lo
   <-> x <= lo /\ (forall c, In c l -> c = lo) /\ (x = lo \/ l <> [])).
Proof.
  intros lo hi. induction l as [|c l IH]; intros x Hlt H.
  - cbn [fold_left]. split.
    + intros ->. split; [lia|]. split; [intros c [] | now left].
    + intros (_ & _ & [E|E]); [exact E | congruence].
  - cbn [fold_left]. rewrite IH by (auto; intros; apply H; now right).
    destruct (H c (or_introl eq_refl)) as [-> | ->].
    + split.
      * intros (A & B & _). split; [lia|]. split; [|right; discriminate].
        intros d [<-|D]; [reflexivity | now apply B].
      * intros (A & B & _). split; [lia|]. split; [|left; lia].
        intros d D. apply B. now right.
    + split.
      * intros (A & _). lia.
      * intros (_ & B & _). specialize (B hi (or_introl eq_refl)). lia.
Qed.

(** X13.  What the flag characters of a record say: over a window of decoded
    samples the rain character is the capital R exactly when the window is
    not empty and every one of its samples was taken in rain, and likewise
    the obscurity character is the capital O exactly when every sample was
    taken in the dark; one dry or bright sample makes the character
    lowercase. *)
Theorem window_characters_upper : forall e ms,
  (forall m, In m ms -> rain m = 82 \/ rain m = 114) ->
  (forall m, In m ms -> obsc m = 79 \/ obsc m = 111) ->
  (maxRain (window e ms) = 82 <-> ms <> [] /\ forall m, In m ms -> rain m = 82) /\
  (maxObsc (window e ms) = 79 <-> ms <> [] /\ forall m, In m ms -> obsc m = 79).
Proof.
  intros e ms Hr Ho. unfold window.
  destruct (window_maxima ms (cleared e)) as [-> ->]. cbn [cleared maxRain maxObsc].
  assert (G : forall (f : Measurement -> Z) lo hi,
            0 < lo < hi ->
            (forall m, In m ms -> f m = lo \/ f m = hi) ->
            (fold_left Z.max (map f ms) 0 = lo
             <-> ms <> [] /\ forall m, In m ms -> f m = lo)).
  { intros f lo hi Hl H. rewrite (fold_max_lower lo hi) by
      (try lia; intros c M; apply in_map_iff in M; destruct M as (m & <- & M); auto).
    split.
    - intros (_ & B & [C|C]); [lia|].
      split; [intros ->; now apply C|].
      intros m M. apply B. now apply in_map.
    - intros (C & B). split; [lia|]. split.
      + intros c M. apply in_map_iff in M. destruct M as (m & <- & M). now apply B.
      + right. destruct ms; [congruence | discriminate]. }
  split; [apply (G rain 82 114); [lia | exact Hr] | apply (G obsc 79 111); [lia | exact Ho]].
Qed.

Lemma window_characters_upper_witness :
  (maxRain (window 0 [dark_rain_sample; dawn3_dry_sample]) = 82
   <-> [dark_rain_sample; dawn3_dry_sample] <> [] /\
       forall m, In m [dark_rain_sample; dawn3_dry_sample] -> rain m = 82) /\
  (maxObsc (window 0 [dark_rain_sample; dawn3_dry_sample]) = 79
   <-> [dark_rain_sample; dawn3_dry_sample] <> [] /\
       forall m, In m [dark_rain_sample; dawn3_dry_sample] -> obsc m = 79).
Proof.
  apply (window_characters_upper 0 [dark_rain_sample; dawn3_dry_sample]).
  - intros m [<-|[<-|[]]]; [left | right]; reflexivity.
  - intros m [<-|[<-|[]]]; [left | right]; reflexivity.
Defined.

(** ** The size of the accumulators *)

(** X14.  The sums cannot run away: after [k] decoded samples the count is
    [k], the temperature sum lies within 999 tenths per sample, the dawn sum
    within 999 and each sun sum within 99 per sample, and the wind maximum
    within 0..999; and every datagram that passed the sanity checks decodes
    to a sample within these ranges. *)
Theorem accumulators_bounded :
  (forall buf n, validate buf n = 0 -> in_range (fst (decode buf))) /\
  (forall e ms, Forall in_range ms -> within (window e ms) (Z.of_nat (List.length ms))).
Proof.
  split.
  - intros buf n V. apply validate_well_formed in V.
    now apply (well_formed_decode buf n V).
  - exact window_bounds.
Qed.

Lemma accumulators_bounded_witness :
  in_range (fst (decode (datagram example_text ++ [0]))) /\
  within (window 0 [dawn2_rain_sample; dawn3_dry_sample])
    (Z.of_nat (List.length [dawn2_rain_sample; dawn3_dry_sample])).
Proof.
  split.
  - apply (proj1 accumulators_bounded (datagram example_text ++ [0]) 40).
    vm_compute. reflexivity.
  - apply (proj2 accumulators_bounded 0 [dawn2_rain_sample; dawn3_dry_sample]).
    repeat constructor; vm_compute; discriminate.
Defined.

(** ** The options *)

Lemma parse_step : forall c optarg rest o o',
  Options.parse ((c, optarg) :: rest) o = Options.Run o' ->
  exists o1,
    Options.parse rest o1 = Options.Run o' /\
    (c = 102 /\ (List.length (c_str optarg) < LINELEN)%nat /\
     o1 = {| Options.device := c_str optarg;
             Options.use_syslog := Options.use_syslog o;
             Options.logf := Options.logf o;
             Options.autoname := Options.autoname o;
             Options.interval := Options.interval o |} \/
     c = 115 /\ o1 = {| Options.device := Options.device o;
                        Options.use_syslog := true;
                        Options.logf := Options.logf o;
                        Options.autoname := Options.autoname o;
                        Options.interval := Options.interval o |} \/
     c = 108 /\ (List.length (c_str optarg) < LINELEN)%nat /\
     o1 = {| Options.device := Options.device o;
             Options.use_syslog := false;
             Options.logf := c_str optarg;
             Options.autoname := false;
             Options.interval := Options.interval o |} \/
     c = 105 /\ 10 <= atoi optarg /\
     o1 = {| Options.device := Options.device o;
             Options.use_syslog := Options.use_syslog o;
             Options.logf := Options.logf o;
             Options.autoname := Options.autoname o;
             Options.interval := atoi optarg |}).
Proof.
  intros c optarg rest o o' E. cbn [Options.parse] in E. unfold Options.fits in E.
  destruct (Z.eqb_spec c 102).
  { destruct (Nat.ltb_spec (List.length (c_str optarg)) LINELEN); [|discriminate E].
    eexists. split; [exact E|]. left. auto. }
  destruct (Z.eqb_spec c 86); [discriminate E|].
  destruct (Z.eqb_spec c 115); [eexists; split; [exact E|]; right; left; auto|].
  destruct (Z.eqb_spec c 108).
  { destruct (Nat.ltb_spec (List.length (c_str optarg)) LINELEN); [|discriminate E].
    eexists. split; [exact E|]. right; right; left. auto. }
  destruct (Z.eqb_spec c 105); [|discriminate E].
  destruct (Z.ltb_spec (atoi optarg) 10); [discriminate E|].
  eexists. split; [exact E|]. right; right; right. auto.
Qed.

Lemma atoi_int : forall s, - 2 ^ 31 <= atoi s < 2 ^ 31.
Proof.
  intros s. unfold atoi, to_int.
  pose proof (Z.mod_pos_bound (strtol s + 2 ^ 31) (2 ^ 32) ltac:(lia)). lia.
Qed.

(** X15.  When the option loop lets the program go on, the interval is an
    [int] of at least 10 seconds: it is the default of 60 or what [atoi]
    returns for the argument of an [-i]; an argument for which [atoi]
    returns less than 10 (no number, a small one, or a long digit run whose
    low 32 bits are small) ends the program, and so does every option other
    than f, s, l and i, the [t] of the option string included. *)
Theorem options_interval : forall opts logf0 o',
  Options.parse opts (Options.defaults logf0) = Options.Run o' ->
  10 <= Options.interval o' < 2 ^ 31 /\
  (Options.interval o' = 60 \/
   exists optarg, In (105, optarg) opts /\ Options.interval o' = atoi optarg) /\
  Forall (fun c => fst c = 102 \/ fst c = 115 \/ fst c = 108 \/ fst c = 105) opts /\
  Forall (fun c => fst c = 105 -> 10 <= atoi (snd c)) opts.
Proof.
  intros opts logf0.
  assert (G : forall opts o o',
            Options.parse opts o = Options.Run o' ->
            (10 <= Options.interval o < 2 ^ 31 -> 10 <= Options.interval o' < 2 ^ 31) /\
            (Options.interval o' = Options.interval o \/
             exists optarg, In (105, optarg) opts /\ Options.interval o' = atoi optarg) /\
            Forall (fun c => fst c = 102 \/ fst c = 115 \/ fst c = 108 \/ fst c = 105) opts /\
            Forall (fun c => fst c = 105 -> 10 <= atoi (snd c)) opts).
  { clear opts. induction opts as [|[c optarg] opts IH]; intros o o' E.
    - injection E as <-. repeat split; auto; lia.
    - apply parse_step in E. destruct E as (o1 & E & C).
      destruct (IH _ _ E) as (I1 & I2 & I3 & I4).
      destruct C as [(-> & _ & ->) | [(-> & ->) | [(-> & _ & ->) | (-> & A & ->)]]];
        cbn [Options.interval] in *.
      + split; [exact I1|]. split.
        * destruct I2 as [I2 | (x & M & I2)]; [now left | right; exists x; split; [now right | exact I2]].
        * split; constructor; cbn [fst snd]; auto; discriminate.
      + split; [exact I1|]. split.
        * destruct I2 as [I2 | (x & M & I2)]; [now left | right; exists x; split; [now right | exact I2]].
        * split; constructor; cbn [fst snd]; auto; discriminate.
      + split; [exact I1|]. split.
        * destruct I2 as [I2 | (x & M & I2)]; [now left | right; exists x; split; [now right | exact I2]].
        * split; constructor; cbn [fst snd]; auto; discriminate.
      + split; [intros _; apply I1; pose proof (atoi_int optarg); lia|]. split.
        * right. destruct I2 as [I2 | (x & M & I2)];
            [exists optarg; split; [now left | exact I2]
            | exists x; split; [now right | exact I2]].
        * split; constructor; cbn [fst snd]; auto. }
  intros o' E. destruct (G _ _ _ E) as (I1 & I2 & I3 & I4).
  cbn [Options.defaults Options.interval] in I1, I2.
  split; [apply I1; lia|]. repeat split; assumption.
Qed.

Lemma options_interval_witness :
  10 <= 10 < 2 ^ 31 /\
  (10 = 60 \/
   exists optarg,
     In (105, optarg) [(115, []); (105, bytes_of_string "4294967306")] /\
     10 = atoi optarg) /\
  Forall (fun c => fst c = 102 \/ fst c = 115 \/ fst c = 108 \/ fst c = 105)
    [(115, []); (105, bytes_of_string "4294967306")] /\
  Forall (fun c => fst c = 105 -> 10 <= atoi (snd c))
    [(115, []); (105, bytes_of_string "4294967306")].
Proof.
  apply (options_interval [(115, []); (105, bytes_of_string "4294967306")] []
           {| Options.device := bytes_of_string "/dev/ttyS1";
              Options.use_syslog := true; Options.logf := [];
              Options.autoname := true; Options.interval := 10 |}).
  vm_compute. reflexivity.
Defined.





(** ** The file names *)

Lemma after_last_some : forall c s tl,
  Options.after_last c s = Some tl ->
  exists pre, s = pre ++ c :: tl /\ ~ In c tl.
Proof.
  intros c. induction s as [|x r IH]; intros tl E; [discriminate E|].
  cbn [Options.after_last] in E.
  destruct (Options.after_last c r) as [t|] eqn:A.
  - injection E as <-. destruct (IH t eq_refl) as (pre & -> & N).
    exists (x :: pre). split; [reflexivity | exact N].
  - destruct (Z.eqb_spec x c) as [->|]; [|discriminate E].
    injection E as <-. exists []. split; [reflexivity|].
    clear IH. induction r as [|y r IHr]; [intros []|].
    cbn [Options.after_last] in A.
    destruct (Options.after_last c r) as [t|]; [discriminate A|].
    destruct (Z.eqb_spec y c); [discriminate A|].
    intros [F|F]; [congruence | now apply IHr].
Qed.

Lemma after_last_none : forall c s,
  Options.after_last c s = None <-> ~ In c s.
Proof.
  intros c. induction s as [|x r IH]; [split; [intros _ [] | reflexivity]|].
  cbn [Options.after_last].
  destruct (Options.after_last c r) as [t|].
  - split; [discriminate|]. intros N. exfalso.
    assert (E : Some t <> None) by discriminate.
    apply E. apply IH. intro F. apply N. now right.
  - destruct (Z.eqb_spec x c) as [->|D].
    + split; [discriminate|]. intros N. exfalso. apply N. now left.
    + split; [|reflexivity]. intros _ [F|F]; [congruence|].
      now apply (proj1 IH eq_refl).
Qed.

Lemma strip_dir_spec : forall s,
  ~ In 47 (Options.strip_dir s) /\
  exists d, s = d ++ Options.strip_dir s.
Proof.
  intros s. unfold Options.strip_dir.
  destruct (Options.after_last 47 s) as [tl|] eqn:A.
  - destruct (after_last_some _ _ _ A) as (pre & E & N). split; [exact N|].
    exists (pre ++ [47]). now rewrite <- app_assoc.
  - split; [now apply after_last_none | now exists []].
Qed.

Lemma stored_some : forall size s name,
  Options.stored size s = Some name <-> name = s /\ (List.length s < size)%nat.
Proof.
  intros size s name. unfold Options.stored, Options.fits.
  destruct (Nat.ltb_spec (List.length s) size); split.
  - intros E. injection E as <-. auto.
  - intros [-> _]. reflexivity.
  - discriminate.
  - intros [_ L]. lia.
Qed.

(** X17.  Whenever the name of the snapshot file or of the generated log
    file fits its array of 150 bytes, it lies directly in /dev/shm or
    /usb/log, whatever directories the program and device names carry: what
    follows the directory holds no further slash and is built from the last
    components of the two names.  The name of the lock file is defined
    exactly for a device name that holds a slash and a result that fits the
    80 bytes of its array, and then ends in that same last component. *)
Theorem file_names : forall argv0 dev lockpath name,
  (Options.shm_name argv0 dev = Some name ->
   (List.length name < LINELEN)%nat /\
   exists base,
     ~ In 47 base /\
     base = Options.strip_dir (c_str argv0) ++ 45 :: Options.strip_dir (c_str dev) /\
     (exists d1 d2, c_str argv0 = d1 ++ Options.strip_dir (c_str argv0) /\
                    c_str dev = d2 ++ Options.strip_dir (c_str dev)) /\
     name = bytes_of_string "/dev/shm/" ++ base) /\
  (Options.log_name argv0 dev = Some name ->
   (List.length name < LINELEN)%nat /\
   exists base,
     ~ In 47 base /\
     base = Options.strip_dir (c_str argv0) ++ 45 :: Options.strip_dir (c_str dev) /\
     name = bytes_of_string "/usb/log/" ++ base ++ bytes_of_string ".log") /\
  (Options.lock_name lockpath dev = Some name <->
   In 47 (c_str dev) /\
   name = c_str lockpath ++ bytes_of_string "/LCK.." ++ Options.strip_dir (c_str dev) /\
   (List.length name < 80)%nat).
Proof.
  intros argv0 dev lockpath name.
  destruct (strip_dir_spec (c_str argv0)) as [N1 (d1 & P1)].
  destruct (strip_dir_spec (c_str dev)) as [N2 (d2 & P2)].
  assert (NB : ~ In 47 (Options.strip_dir (c_str argv0) ++ 45 :: Options.strip_dir (c_str dev))).
  { intro F. apply in_app_or in F. destruct F as [F|[F|F]];
      [auto | discriminate F | auto]. }
  split; [|split].
  - unfold Options.shm_name. intros E. apply stored_some in E. destruct E as [-> L].
    split; [exact L|]. eexists. split; [exact NB|]. split; [reflexivity|].
    split; [exists d1, d2; auto|].
    change (bytes_of_string "/dev/shm/") with (bytes_of_string "/dev/shm" ++ [47]).
    now rewrite <- !app_assoc.
  - unfold Options.log_name. intros E. apply stored_some in E. destruct E as [-> L].
    split; [exact L|]. eexists. split; [exact NB|]. split; [reflexivity|].
    change (bytes_of_string "/usb/log/") with (bytes_of_string "/usb/log" ++ [47]).
    now rewrite <- !app_assoc.
  - unfold Options.lock_name, Options.strip_dir.
    destruct (Options.after_last 47 (c_str dev)) as [tl|] eqn:A.
    + rewrite stored_some. split.
      * intros [-> L]. split; [|split; [reflexivity | exact L]].
        destruct (after_last_some _ _ _ A) as (pre & E & _). rewrite E.
        apply in_or_app. right. now left.
      * intros (_ & -> & L). split; [reflexivity | exact L].
    + split; [discriminate|]. intros (I & _). apply after_last_none in A. contradiction.
Qed.

Lemma file_names_witness :
  (List.length (bytes_of_string "/dev/shm/eltakoMS-ttyS1") < LINELEN)%nat /\
  exists base,
    ~ In 47 base /\
    base = Options.strip_dir (c_str (bytes_of_string "./eltakoMS"))
           ++ 45 :: Options.strip_dir (c_str (bytes_of_string "/dev/ttyS1")) /\
    (exists d1 d2,
       c_str (bytes_of_string "./eltakoMS")
       = d1 ++ Options.strip_dir (c_str (bytes_of_string "./eltakoMS")) /\
       c_str (bytes_of_string "/dev/ttyS1")
       = d2 ++ Options.strip_dir (c_str (bytes_of_string "/dev/ttyS1"))) /\
    bytes_of_string "/dev/shm/eltakoMS-ttyS1" = bytes_of_string "/dev/shm/" ++ base.
Proof.
  apply (proj1 (file_names (bytes_of_string "./eltakoMS") (bytes_of_string "/dev/ttyS1")
                  (bytes_of_string "/var/lock")
                  (bytes_of_string "/dev/shm/eltakoMS-ttyS1"))).
  vm_compute. reflexivity.
Defined.

(** ** A short datagram and the earlier content of the buffer *)

(** X18.  A datagram shorter than the fields it is tested for is tested
    against what earlier datagrams left in the buffer: for an empty datagram
    (the end mark alone) the length, marker and sign bits are set, and each
    of the field bits 0x0008 to 0x1000 is set exactly when the bytes already
    in the buffer would have set it. *)
Theorem empty_datagram_inherits_bits : forall rest buf0,
  List.length buf0 = LINELEN ->
  exists buf,
    read_frame (3 :: rest) buf0 = Some (buf, 1, rest) /\
    Z.testbit (validate buf 1) 0 = true /\
    Z.testbit (validate buf 1) 1 = true /\
    Z.testbit (validate buf 1) 2 = true /\
    (forall k, 3 <= k <= 12 ->
               Z.testbit (validate buf 1) k = Z.testbit (validate buf0 40) k).
Proof.
  intros rest buf0 L.
  pose proof (read_datagram [] rest buf0) as R. cbn [app List.length Nat.add Z.of_nat Z.add] in R.
  rewrite R by (auto; unfold LINELEN; lia). clear R.
  eexists. split; [reflexivity|].
  destruct buf0 as [|x0 [|x1 tl]]; try discriminate L. cbn [skipn].
  assert (H : forall i, (2 <= i)%nat -> ch (3 :: 0 :: tl) i = ch (x0 :: x1 :: tl) i).
  { intros i Hi. destruct i as [|[|i]]; try lia. reflexivity. }
  split; [rewrite length_bit; reflexivity|].
  split; [rewrite validate_bit by lia; unfold sanity_checks;
          cbn [existsb fst snd]; eval_testbits; reflexivity|].
  split; [rewrite validate_bit by lia; unfold sanity_checks;
          cbn [existsb fst snd]; eval_testbits; reflexivity|].
  intros k Hk.
  assert (K : k = 3 \/ k = 4 \/ k = 5 \/ k = 6 \/ k = 7 \/ k = 8 \/ k = 9 \/
              k = 10 \/ k = 11 \/ k = 12) by lia.
  repeat destruct K as [K|K]; subst k;
    rewrite !validate_bit by lia; unfold sanity_checks;
    cbn [existsb fst snd]; eval_testbits; unfold not_numeric;
    rewrite !H by lia; reflexivity.
Qed.

Lemma empty_datagram_inherits_bits_witness :
  exists buf,
    read_frame (3 :: []) (carved (datagram example_text ++ 0 :: skipn 41 blank))
    = Some (buf, 1, []) /\
    Z.testbit (validate buf 1) 0 = true /\
    Z.testbit (validate buf 1) 1 = true /\
    Z.testbit (validate buf 1) 2 = true /\
    (forall k, 3 <= k <= 12 ->
               Z.testbit (validate buf 1) k
               = Z.testbit (validate (carved (datagram example_text ++ 0 :: skipn 41 blank)) 40) k).
Proof.
  apply (empty_datagram_inherits_bits [] (carved (datagram example_text ++ 0 :: skipn 41 blank))).
  reflexivity.
Defined.
